(** * Block admission, the Subscribe payload and the join of the nkn node

    A shallow embedding of three packages of the repository,

      - [core/ledger] (validation of incoming blocks: [TransactionCheck],
        [HeaderCheck], [TimestampCheck]),
      - [core/transaction/payload] (the [Subscribe] record with its binary
        and JSON forms), and
      - [main] (the function [JoinNet] of the node's entry point),

    together with the statements of the specification that concern them and
    further properties read off the code.
    Go packages are rendered as modules, Go functions keep their names.
    Collaborators outside these packages (the ledger store, the crypto
    provider, the transaction validators, the JSON library, the overlay
    network) are section variables: every statement holds for whatever they
    compute.  Helpers of the repository whose sources are missing are
    written after the specification and marked as such. *)

From Stdlib Require Import ZArith NArith Nnat List String Ascii Bool Lia.
From Stdlib Require Import Permutation.
From Stdlib.Strings Require Import Byte.
From Stdlib Require DecimalString DecimalN DecimalFacts.
Import ListNotations.
Local Open Scope string_scope.
Local Open Scope Z_scope.

(** ** Machine integers

    Go integers of width [w] are integers of [Z]; arithmetic that can leave
    the range is wrapped explicitly. *)

Definition wrap32 (z : Z) : Z := z mod 2 ^ 32.

Definition wrap64 (z : Z) : Z := (z + 2 ^ 63) mod 2 ^ 64 - 2 ^ 63.

Definition is_int64 (z : Z) : Prop := - 2 ^ 63 <= z < 2 ^ 63.

(** [[]byte]: only [len], indexing and [bytes.Compare]/[bytes.Equal] are
    applied to byte slices in the modelled code, and none of them tells a
    nil slice from an empty one, so both are the empty list. *)
Definition bytes := list byte.

(** [bytes.Equal(a, b)]; [bytes.Compare(a, b) != 0] is its negation. *)
Fixpoint bytes_Equal (a b : bytes) : bool :=
  match a, b with
  | [], [] => true
  | x :: a', y :: b' => Byte.eqb x y && bytes_Equal a' b'
  | _, _ => false
  end.

(** ** Go errors

    An error value is recorded by the call that created it.  [errors_New]
    and [fmt_Errorf] are the errors created inside the modelled functions
    (the format string is kept with its arguments instead of being
    rendered), [NewDetailErr] wraps a cause, and [callee] is an error value
    handed back by a collaborator and passed on unchanged ([return err]). *)

Inductive fmt_arg : Type :=
| ArgInt (z : Z)
| ArgStr (s : string).

Inductive ErrCode : Type :=
| ErrNoError
| ErrNoCode
| ErrCodeOther (code : Z).

Inductive error : Type :=
| errors_New (text : string)
| fmt_Errorf (format : string) (args : list fmt_arg)
| NewDetailErr (cause : error) (code : ErrCode) (desc : string)
| callee (text : string).

(** A Go result [(T, error)]: [inl] is the error, [inr] the value. *)
Definition result (A : Type) : Type := (error + A)%type.

(** What a collaborator returns: its own error text, or a value. *)
Definition answer (A : Type) : Type := (string + A)%type.

Definition ask {A : Type} (a : answer A) : result A :=
  match a with
  | inl e => inl (callee e)
  | inr v => inr v
  end.

Declare Scope go_scope.
Delimit Scope go_scope with go.

Notation "x <- c ;; k" :=
  (match c with
   | inl e => inl e
   | inr x => k
   end)
  (at level 61, c at next level, right associativity) : go_scope.

Notation "' p <- c ;; k" :=
  (match c with
   | inl e => inl e
   | inr p => k
   end)
  (at level 61, p pattern, c at next level, right associativity) : go_scope.

(** Case analysis on an innermost scrutinee of the goal. *)
Ltac case_scrutinee :=
  match goal with
  | |- context [match ?x with _ => _ end] =>
      lazymatch x with
      | context [match _ with _ => _ end] => fail
      | _ => destruct x
      end
  end.

(** A call either returns or panics at run time. *)
Inductive outcome (A : Type) : Type :=
| Return (a : A)
| Panic (reason : string).
Arguments Return {A} a.
Arguments Panic {A} reason.

(** A Go slice value is nil or has a backing array, which may be empty. *)
Inductive slice (A : Type) : Type :=
| nil_slice
| make_slice (elems : list A).
Arguments nil_slice {A}.
Arguments make_slice {A} elems.

Definition elements {A : Type} (s : slice A) : list A :=
  match s with
  | nil_slice => []
  | make_slice l => l
  end.

(** ** Package [time] of the Go library, as far as the ledger uses it *)

Module time.

(** [time.Duration]: a count of nanoseconds. *)
Definition Duration := Z.

Definition Second : Duration := 1000000000.

(** The wall-clock reading of a [time.Time]: seconds since January 1 of
    year 1 and nanoseconds within the second, in [0, 999999999]. *)
Record Time : Type := mkTime { sec : Z; nsec : Z }.

Definition unixToInternal : Z := 62135596800.

(** [time.Unix(sec, nsec)]. *)
Definition Unix (s n : Z) : Time :=
  let '(s, n) :=
    if (n <? 0) || (1000000000 <=? n) then
      let q := Z.quot n 1000000000 in
      let s := wrap64 (s + q) in
      let n := n - q * 1000000000 in
      if n <? 0 then (wrap64 (s - 1), n + 1000000000) else (s, n)
    else (s, n) in
  mkTime (wrap64 (s + unixToInternal)) n.

(** [t.Unix()]. *)
Definition ToUnix (t : Time) : Z := wrap64 (sec t - unixToInternal).

(** [t.Add(d)]. *)
Definition Add (t : Time) (d : Duration) : Time :=
  let dsec := Z.quot d 1000000000 in
  let n := nsec t + Z.rem d 1000000000 in
  let '(dsec, n) :=
    if 1000000000 <=? n then (dsec + 1, n - 1000000000)
    else if n <? 0 then (dsec - 1, n + 1000000000)
    else (dsec, n) in
  mkTime (wrap64 (sec t + dsec)) n.

(** [t.Before(u)] and [t.After(u)] on wall-clock readings. *)
Definition Before (t u : Time) : bool :=
  (sec t <? sec u) || ((sec t =? sec u) && (nsec t <? nsec u)).

Definition After (t u : Time) : bool :=
  (sec u <? sec t) || ((sec t =? sec u) && (nsec u <? nsec t)).

(** Nanoseconds since the Unix epoch, as a mathematical integer. *)
Definition nanos (t : Time) : Z :=
  (sec t - unixToInternal) * 1000000000 + nsec t.

(** A clock reading the node can have: a well-formed nanosecond field
    and a date within 2^33 seconds (some 270 years) after 1970. *)
Definition plausible (t : Time) : Prop :=
  0 <= nsec t < 1000000000 /\
  unixToInternal <= sec t < unixToInternal + 2 ^ 33.

End time.

Lemma bytes_Equal_eq a : forall b, bytes_Equal a b = true <-> a = b.
Proof.
  induction a as [|x a IH]; intros [|y b]; cbn; try (split; congruence).
  rewrite andb_true_iff, IH. split.
  - intros [Hxy ->]. apply Byte.byte_dec_bl in Hxy. congruence.
  - intros [= -> ->]. split; [apply Byte.byte_dec_lb|]; reflexivity.
Qed.

Lemma wrap64_small z : is_int64 z -> wrap64 z = z.
Proof.
  unfold is_int64, wrap64; intros H.
  rewrite Z.mod_small by lia. lia.
Qed.

Lemma wrap64_above z : 2 ^ 63 <= z < 2 ^ 64 -> wrap64 z = z - 2 ^ 64.
Proof.
  unfold wrap64; intros H.
  replace (z + 2 ^ 63) with ((z - 2 ^ 63) + 1 * 2 ^ 64) by lia.
  rewrite Z.mod_add by lia. rewrite Z.mod_small by lia. lia.
Qed.

(** ** Package [common]: hexadecimal text *)

Module common.

(** A 256-bit hash, [Uint256]: an array of 32 bytes. *)
Definition Uint256 := list byte.

Definition hexDigit (n : N) : ascii :=
  match n with
  | 0 => "0" | 1 => "1" | 2 => "2" | 3 => "3" | 4 => "4" | 5 => "5"
  | 6 => "6" | 7 => "7" | 8 => "8" | 9 => "9" | 10 => "a" | 11 => "b"
  | 12 => "c" | 13 => "d" | 14 => "e" | _ => "f"
  end%N%char.

(** The value of a hexadecimal digit, of either case. *)
Definition fromHexChar (c : ascii) : option N :=
  (let n := N_of_ascii c in
   if (48 <=? n) && (n <=? 57) then Some (n - 48)
   else if (97 <=? n) && (n <=? 102) then Some (n - 87)
   else if (65 <=? n) && (n <=? 70) then Some (n - 55)
   else None)%N.

Definition byteOfN (n : N) : byte :=
  match Byte.of_N n with
  | Some b => b
  | None => x00
  end.

(** Modelled from the spec: [BytesToHexString], whose source is missing; the
    specification fixes its output as lowercase hexadecimal without prefix,
    two digits per byte. *)
Fixpoint BytesToHexString (data : bytes) : string :=
  match data with
  | [] => EmptyString
  | b :: rest =>
      let n := Byte.to_N b in
      String (hexDigit (n / 16)) (String (hexDigit (n mod 16))
        (BytesToHexString rest))
  end%N.

Fixpoint decodeHex (s : string) : option bytes :=
  match s with
  | EmptyString => Some []
  | String _ EmptyString => None
  | String c1 (String c2 rest) =>
      match fromHexChar c1, fromHexChar c2, decodeHex rest with
      | Some h, Some l, Some tl => Some (byteOfN (16 * h + l) :: tl)
      | _, _, _ => None
      end
  end%N.

(** Modelled from the spec: [HexStringToBytes], whose source is missing.  It
    returns the decoded bytes and a nil error for well-formed hexadecimal
    text; for malformed text (a character that is no digit, or an odd
    length) the specification says that the caller who drops the error is
    left with an empty byte string. *)
Definition HexStringToBytes (value : string) : bytes * option error :=
  match decodeHex value with
  | Some data => (data, None)
  | None => ([], Some (callee "encoding/hex: malformed input"))
  end.

End common.

(** ** Package [unicode/utf8] of the Go library

    Go strings are byte strings; the functions below follow the tables of
    [utf8.DecodeRuneInString] for the well-formed sequences of two, three
    and four bytes. *)

Module utf8.

Definition code (c : ascii) : N := N_of_ascii c.

Definition between (lo hi : N) (c : ascii) : bool :=
  ((lo <=? code c) && (code c <=? hi))%N.

(** A byte below [utf8.RuneSelf]. *)
Definition single (c : ascii) : bool := (code c <? 128)%N.

Definition continuation (c : ascii) : bool := between 0x80 0xBF c.

Definition seq2 (b0 b1 : ascii) : bool :=
  between 0xC2 0xDF b0 && continuation b1.

Definition seq3 (b0 b1 b2 : ascii) : bool :=
  (between 0xE0 0xE0 b0 && between 0xA0 0xBF b1
   || between 0xE1 0xEC b0 && continuation b1
   || between 0xED 0xED b0 && between 0x80 0x9F b1
   || between 0xEE 0xEF b0 && continuation b1)
  && continuation b2.

Definition seq4 (b0 b1 b2 b3 : ascii) : bool :=
  (between 0xF0 0xF0 b0 && between 0x90 0xBF b1
   || between 0xF1 0xF3 b0 && continuation b1
   || between 0xF4 0xF4 b0 && between 0x80 0x8F b1)
  && continuation b2 && continuation b3.

(** [utf8.ValidString]. *)
Fixpoint ValidString (s : string) : bool :=
  match s with
  | EmptyString => true
  | String b0 r0 =>
      if single b0 then ValidString r0 else
      match r0 with
      | String b1 r1 =>
          if seq2 b0 b1 then ValidString r1 else
          match r1 with
          | String b2 r2 =>
              if seq3 b0 b1 b2 then ValidString r2 else
              match r2 with
              | String b3 r3 =>
                  if seq4 b0 b1 b2 b3 then ValidString r3 else false
              | EmptyString => false
              end
          | EmptyString => false
          end
      | EmptyString => false
      end
  end.

Definition char (n : N) : ascii := ascii_of_N n.

(** The encoding of [utf8.RuneError], U+FFFD. *)
Definition replacement : string :=
  String (char 0xEF) (String (char 0xBF) (String (char 0xBD) EmptyString)).

(** [utf8.EncodeRune], as the bytes it writes. *)
Definition EncodeRune (r : N) : string :=
  (if r <? 0x80 then String (char r) EmptyString
   else if r <? 0x800 then
     String (char (0xC0 + r / 64))
       (String (char (0x80 + r mod 64)) EmptyString)
   else if (0xD800 <=? r) && (r <=? 0xDFFF) then replacement
   else if r <? 0x10000 then
     String (char (0xE0 + r / 4096))
       (String (char (0x80 + (r / 64) mod 64))
          (String (char (0x80 + r mod 64)) EmptyString))
   else if r <=? 0x10FFFF then
     String (char (0xF0 + r / 262144))
       (String (char (0x80 + (r / 4096) mod 64))
          (String (char (0x80 + (r / 64) mod 64))
             (String (char (0x80 + r mod 64)) EmptyString)))
   else replacement)%N.

End utf8.

(** ** Package [common/serialization] *)

Module serialization.

Import common.
Local Open Scope list_scope.

Definition Truncated : error := errors_New "Truncated".
Definition LengthTooLarge : error := errors_New "LengthTooLarge".
Definition InvalidUtf8 : error := errors_New "InvalidUtf8".

(** The cap on the length of a byte string, at the recommended 32 MiB. *)
Definition lengthCap : N := 33554432.

(** The [width] low bytes of a number, least significant first, and the
    number a sequence of bytes stands for in that order. *)
Fixpoint littleEndian (width : nat) (n : N) : bytes :=
  match width with
  | O => []
  | S k => byteOfN (n mod 256) :: littleEndian k (n / 256)
  end%N.

Fixpoint littleEndianValue (data : bytes) : N :=
  match data with
  | [] => 0
  | b :: rest => Byte.to_N b + 256 * littleEndianValue rest
  end%N.

(** Reading exactly [n] bytes off a reader, whose state is the input that
    is left. *)
Definition readFull (n : nat) (r : bytes) : result (bytes * bytes) :=
  if (List.length r <? n)%nat then inl Truncated
  else inr (firstn n r, skipn n r).

(** Modelled from the spec: the varint of package [serialization], whose
    source is missing.  The specification leaves the scheme open between a
    LEB128 style and a length-byte-prefixed one and asks only that the two
    directions agree; the scheme taken here is the prefixed one: a value
    below [fd] is its own byte, larger ones follow a byte [fd], [fe] or
    [ff] in 2, 4 or 8 bytes, least significant first.  A writer is the
    sequence of bytes written so far; it takes every byte. *)
Definition WriteVarUint (w : bytes) (value : N) : bytes :=
  (w ++ (if (value <? 0xFD)%N then [byteOfN value]
         else if (value <=? 0xFFFF)%N then xfd :: littleEndian 2 value
         else if (value <=? 0xFFFFFFFF)%N then xfe :: littleEndian 4 value
         else xff :: littleEndian 8 value))%list.

Definition ReadVarUint (r : bytes) : result (N * bytes) :=
  match r with
  | [] => inl Truncated
  | b :: r1 =>
      let wide (n : nat) :=
        ('(data, r2) <- readFull n r1 ;; inr (littleEndianValue data, r2))%go in
      match b with
      | xfd => wide 2%nat
      | xfe => wide 4%nat
      | xff => wide 8%nat
      | _ => inr (Byte.to_N b, r1)
      end
  end.

(** Modelled from the spec: [WriteVarBytes] and [ReadVarBytes] (sources
    missing): the length as a varint, then the raw bytes; reading fails with
    Truncated when the input ends early and with LengthTooLarge when the
    length exceeds the cap. *)
Definition WriteVarBytes (w : bytes) (value : bytes) : bytes :=
  (WriteVarUint w (N.of_nat (List.length value)) ++ value)%list.

Definition ReadVarBytes (r : bytes) : result (bytes * bytes) :=
  ('(n, r1) <- ReadVarUint r ;;
   if (lengthCap <? n)%N then inl LengthTooLarge
   else readFull (N.to_nat n) r1)%go.

(** Modelled from the spec: [WriteVarString] and [ReadVarString] (sources
    missing): as for byte strings, with a validation of the UTF-8 encoding
    on reading, which fails with InvalidUtf8. *)
Definition WriteVarString (w : bytes) (value : string) : bytes :=
  WriteVarBytes w (list_byte_of_string value).

Definition ReadVarString (r : bytes) : result (string * bytes) :=
  ('(data, r1) <- ReadVarBytes r ;;
   let s := string_of_list_byte data in
   if utf8.ValidString s then inr (s, r1) else inl InvalidUtf8)%go.

(** Modelled from the spec: [WriteUint32] and [ReadUint32] (sources
    missing): four bytes, least significant first. *)
Definition WriteUint32 (w : bytes) (value : N) : bytes :=
  (w ++ littleEndian 4 value)%list.

Definition ReadUint32 (r : bytes) : result (N * bytes) :=
  ('(data, r1) <- readFull 4 r ;; inr (littleEndianValue data, r1))%go.

(** *** Reading back what was written *)

Lemma to_N_byteOfN n : (n < 256)%N -> Byte.to_N (byteOfN n) = n.
Proof.
  intros Hn. unfold byteOfN.
  destruct (Byte.of_N n) as [b|] eqn:E.
  - apply Byte.to_of_N. exact E.
  - apply Byte.of_N_None_iff in E. lia.
Qed.

Lemma length_littleEndian width : forall n,
  List.length (littleEndian width n) = width.
Proof.
  induction width as [|k IH]; intros n; cbn; [|rewrite IH]; reflexivity.
Qed.

Lemma littleEndianValue_littleEndian width : forall n,
  (n < 256 ^ N.of_nat width)%N ->
  littleEndianValue (littleEndian width n) = n.
Proof.
  induction width as [|k IH]; intros n Hn.
  - cbn in *. lia.
  - cbn [littleEndian littleEndianValue].
    rewrite to_N_byteOfN by (apply N.mod_lt; lia).
    rewrite IH.
    + rewrite (N.div_mod n 256) at 3 by lia. lia.
    + rewrite Nat2N.inj_succ, N.pow_succ_r' in Hn.
      apply N.Div0.div_lt_upper_bound. lia.
Qed.

Lemma readFull_app data rest :
  readFull (List.length data) (data ++ rest) = inr (data, rest).
Proof.
  unfold readFull. rewrite List.length_app.
  destruct (Nat.ltb_spec (List.length data + List.length rest)
              (List.length data)) as [H|_]; [lia|].
  rewrite List.firstn_app, Nat.sub_diag, List.firstn_all, List.firstn_O,
    List.app_nil_r.
  rewrite List.skipn_app, Nat.sub_diag, List.skipn_all. reflexivity.
Qed.

Lemma WriteVarUint_app w n : WriteVarUint w n = (w ++ WriteVarUint [] n)%list.
Proof. reflexivity. Qed.

Lemma WriteVarBytes_app w data :
  WriteVarBytes w data = (w ++ WriteVarBytes [] data)%list.
Proof.
  unfold WriteVarBytes.
  rewrite WriteVarUint_app, <- List.app_assoc. reflexivity.
Qed.

Lemma WriteVarString_app w s :
  WriteVarString w s = (w ++ WriteVarString [] s)%list.
Proof. apply WriteVarBytes_app. Qed.

Lemma WriteUint32_app w n : WriteUint32 w n = (w ++ WriteUint32 [] n)%list.
Proof. reflexivity. Qed.

Lemma ReadVarUint_wide (b : byte) (width : nat) n rest :
  (n < 256 ^ N.of_nat width)%N ->
  ('(data, r2) <- readFull width (littleEndian width n ++ rest) ;;
   inr (littleEndianValue data, r2))%go = inr (n, rest) :> result (N * bytes).
Proof.
  intros Hn.
  rewrite <- (length_littleEndian width n) at 1.
  rewrite readFull_app, littleEndianValue_littleEndian by exact Hn.
  reflexivity.
Qed.

Lemma ReadVarUint_WriteVarUint n rest :
  (n < 2 ^ 64)%N ->
  ReadVarUint (WriteVarUint [] n ++ rest) = inr (n, rest).
Proof.
  intros Hn. unfold WriteVarUint. cbn [app].
  destruct (N.ltb_spec n 0xFD) as [Hs|Hs].
  - cbn [app ReadVarUint].
    assert (Hb : Byte.to_N (byteOfN n) = n) by (apply to_N_byteOfN; lia).
    revert Hb. generalize (byteOfN n). intros b Hb. subst n.
    destruct b; try reflexivity; vm_compute in Hs; discriminate.
  - destruct (N.leb_spec n 0xFFFF) as [H2|H2];
      [|destruct (N.leb_spec n 0xFFFFFFFF) as [H4|H4]];
      cbn [app ReadVarUint].
    + apply (ReadVarUint_wide xfd 2). cbn. lia.
    + apply (ReadVarUint_wide xfe 4). cbn. lia.
    + apply (ReadVarUint_wide xff 8). cbn. lia.
Qed.

Lemma ReadVarBytes_WriteVarBytes data rest :
  (N.of_nat (List.length data) <= lengthCap)%N ->
  ReadVarBytes (WriteVarBytes [] data ++ rest) = inr (data, rest).
Proof.
  intros Hn. unfold ReadVarBytes, WriteVarBytes.
  rewrite <- List.app_assoc, ReadVarUint_WriteVarUint
    by (unfold lengthCap in Hn; lia).
  destruct (N.ltb_spec lengthCap (N.of_nat (List.length data))); [lia|].
  rewrite Nat2N.id. apply readFull_app.
Qed.

Lemma length_list_byte_of_string s :
  List.length (list_byte_of_string s) = String.length s.
Proof.
  unfold list_byte_of_string. rewrite List.length_map.
  induction s as [|c s IH]; cbn; [|rewrite IH]; reflexivity.
Qed.

Lemma ReadVarString_WriteVarString s rest :
  (N.of_nat (String.length s) <= lengthCap)%N ->
  utf8.ValidString s = true ->
  ReadVarString (WriteVarString [] s ++ rest) = inr (s, rest).
Proof.
  intros Hn Hv. unfold ReadVarString, WriteVarString.
  rewrite ReadVarBytes_WriteVarBytes
    by (rewrite length_list_byte_of_string; exact Hn).
  rewrite string_of_list_byte_of_string, Hv. reflexivity.
Qed.

Lemma ReadUint32_WriteUint32 n rest :
  (n < 2 ^ 32)%N ->
  ReadUint32 (WriteUint32 [] n ++ rest) = inr (n, rest).
Proof.
  intros Hn. unfold ReadUint32, WriteUint32. cbn [app].
  apply (ReadVarUint_wide x00 4). cbn. lia.
Qed.

End serialization.

(** ** Package [encoding/json] of the Go library: strings and numbers

    The text of a JSON document is a Go byte slice; it is written here as a
    string, which is a sequence of bytes as well. *)

Module json.

Import utf8 common.

Definition dquote : ascii := "034"%char.
Definition backslash : ascii := "092"%char.

(** The bytes the encoder copies unchanged when it escapes for HTML
    ([htmlSafeSet]), among the bytes below [utf8.RuneSelf]. *)
Definition htmlSafe (c : ascii) : bool :=
  (0x20 <=? code c)%N
  && negb (Ascii.eqb c dquote) && negb (Ascii.eqb c backslash)
  && negb (Ascii.eqb c "&") && negb (Ascii.eqb c "<")
  && negb (Ascii.eqb c ">").

(** What the encoder writes for a byte below [utf8.RuneSelf]. *)
Definition escapeByte (c : ascii) : string :=
  if htmlSafe c then String c EmptyString
  else if Ascii.eqb c backslash || Ascii.eqb c dquote then
    String backslash (String c EmptyString)
  else if Ascii.eqb c "010" then String backslash "n"
  else if Ascii.eqb c "013" then String backslash "r"
  else if Ascii.eqb c "009" then String backslash "t"
  else String backslash "u00"
       ++ String (hexDigit (code c / 16))
            (String (hexDigit (code c mod 16)) EmptyString).

(** The escape the encoder writes for U+FFFD. *)
Definition escapedReplacement : string := String backslash "ufffd".

(** U+2028 and U+2029, which the encoder escapes: the sequences [e2 80 a8]
    and [e2 80 a9]. *)
Definition lineSeparator (b0 b1 b2 : ascii) : bool :=
  between 0xE2 0xE2 b0 && between 0x80 0x80 b1 && between 0xA8 0xA9 b2.

(** The loop of [encodeState.string]: the text between the quotes.  A byte
    that starts no well-formed sequence is written as the escape of
    U+FFFD. *)
Fixpoint quoteBody (s : string) : string :=
  match s with
  | EmptyString => EmptyString
  | String b0 r0 =>
      if single b0 then escapeByte b0 ++ quoteBody r0 else
      let invalid := escapedReplacement ++ quoteBody r0 in
      match r0 with
      | String b1 r1 =>
          if seq2 b0 b1 then String b0 (String b1 (quoteBody r1)) else
          match r1 with
          | String b2 r2 =>
              if seq3 b0 b1 b2 then
                if lineSeparator b0 b1 b2 then
                  String backslash "u202"
                  ++ String (hexDigit (code b2 mod 16)) (quoteBody r2)
                else String b0 (String b1 (String b2 (quoteBody r2)))
              else
              match r2 with
              | String b3 r3 =>
                  if seq4 b0 b1 b2 b3 then
                    String b0 (String b1 (String b2 (String b3 (quoteBody r3))))
                  else invalid
              | EmptyString => invalid
              end
          | EmptyString => invalid
          end
      | EmptyString => invalid
      end
  end.

(** A string value as the encoder writes it. *)
Definition encodeString (s : string) : string :=
  String dquote (quoteBody s ++ String dquote EmptyString).

(** An unsigned integer as the encoder writes it, in decimal. *)
Definition formatUint (n : N) : string :=
  DecimalString.NilEmpty.string_of_uint (N.to_uint n).

(** [getu4] on the four characters after the letter u of an escape. *)
Definition hex4 (h1 h2 h3 h4 : ascii) : option N :=
  match fromHexChar h1, fromHexChar h2, fromHexChar h3, fromHexChar h4 with
  | Some a, Some b, Some c, Some d => Some (((a * 16 + b) * 16 + c) * 16 + d)%N
  | _, _, _, _ => None
  end.

Definition isSurrogate (r : N) : bool := ((0xD800 <=? r) && (r <? 0xE000))%N.

(** [utf16.DecodeRune] on a pair of code units. *)
Definition decodePair (r1 r2 : N) : option N :=
  (if (0xD800 <=? r1) && (r1 <? 0xDC00) && (0xDC00 <=? r2) && (r2 <? 0xE000)
   then Some ((r1 - 0xD800) * 1024 + (r2 - 0xDC00) + 0x10000)
   else None)%N.

Definition prepend (prefix : string) (x : option (string * string))
    : option (string * string) :=
  match x with
  | Some (s, rest) => Some (prefix ++ s, rest)
  | None => None
  end.

(** The text of a string literal, from the character after the opening
    quote: the value it stands for ([unquote]) and the input after the
    closing quote; nothing when the literal is malformed.  Bytes that are
    no well-formed UTF-8 and surrogate halves that form no pair become
    U+FFFD. *)
Fixpoint unquote (s : string) : option (string * string) :=
  match s with
  | EmptyString => None
  | String c r =>
      if Ascii.eqb c dquote then Some (EmptyString, r)
      else if Ascii.eqb c backslash then
        match r with
        | EmptyString => None
        | String e r1 =>
            if Ascii.eqb e dquote then prepend (String dquote "") (unquote r1)
            else if Ascii.eqb e backslash then
              prepend (String backslash "") (unquote r1)
            else if Ascii.eqb e "/" then prepend "/" (unquote r1)
            else if Ascii.eqb e "b" then prepend (String "008" "") (unquote r1)
            else if Ascii.eqb e "f" then prepend (String "012" "") (unquote r1)
            else if Ascii.eqb e "n" then prepend (String "010" "") (unquote r1)
            else if Ascii.eqb e "r" then prepend (String "013" "") (unquote r1)
            else if Ascii.eqb e "t" then prepend (String "009" "") (unquote r1)
            else if Ascii.eqb e "u" then
              match r1 with
              | String h1 (String h2 (String h3 (String h4 r5))) =>
                  match hex4 h1 h2 h3 h4 with
                  | None => None
                  | Some rr =>
                      if isSurrogate rr then
                        let lone := prepend replacement (unquote r5) in
                        match r5 with
                        | String e1 (String e2 (String k1 (String k2
                            (String k3 (String k4 r11))))) =>
                            if Ascii.eqb e1 backslash && Ascii.eqb e2 "u" then
                              match hex4 k1 k2 k3 k4 with
                              | Some rr1 =>
                                  match decodePair rr rr1 with
                                  | Some dec =>
                                      prepend (EncodeRune dec) (unquote r11)
                                  | None => lone
                                  end
                              | None => lone
                              end
                            else lone
                        | _ => lone
                        end
                      else prepend (EncodeRune rr) (unquote r5)
                  end
              | _ => None
              end
            else None
        end
      else if (code c <? 0x20)%N then None
      else if single c then prepend (String c "") (unquote r)
      else
        let invalid := prepend replacement (unquote r) in
        match r with
        | String b1 r1 =>
            if seq2 c b1 then prepend (String c (String b1 "")) (unquote r1)
            else
            match r1 with
            | String b2 r2 =>
                if seq3 c b1 b2 then
                  prepend (String c (String b1 (String b2 ""))) (unquote r2)
                else
                match r2 with
                | String b3 r3 =>
                    if seq4 c b1 b2 b3 then
                      prepend
                        (String c (String b1 (String b2 (String b3 ""))))
                        (unquote r3)
                    else invalid
                | EmptyString => invalid
                end
            | EmptyString => invalid
            end
        | EmptyString => invalid
        end
  end.

(** A string literal at the head of the input. *)
Definition decodeString (s : string) : option (string * string) :=
  match s with
  | String c r => if Ascii.eqb c dquote then unquote r else None
  | EmptyString => None
  end.

(** The decimal digit a character stands for. *)
Definition digitOf (c : ascii) : option (Decimal.uint -> Decimal.uint) :=
  if between 48 57 c then
    Some match (code c - 48)%N with
         | 0%N => Decimal.D0 | 1%N => Decimal.D1 | 2%N => Decimal.D2
         | 3%N => Decimal.D3 | 4%N => Decimal.D4 | 5%N => Decimal.D5
         | 6%N => Decimal.D6 | 7%N => Decimal.D7 | 8%N => Decimal.D8
         | _ => Decimal.D9
         end
  else None.

(** The longest run of decimal digits at the head of the input. *)
Fixpoint digits (s : string) : Decimal.uint * string :=
  match s with
  | EmptyString => (Decimal.Nil, EmptyString)
  | String c r =>
      match digitOf c with
      | Some d => let '(ds, rest) := digits r in (d ds, rest)
      | None => (Decimal.Nil, s)
      end
  end.

(** A number literal without sign, fraction and exponent that fits a
    [uint32]: the only literals the decoder stores into a [uint32] field
    without an error.  A literal has no leading zero. *)
Definition decodeUint32 (s : string) : option (N * string) :=
  let '(ds, rest) := digits s in
  match ds with
  | Decimal.Nil => None
  | Decimal.D0 Decimal.Nil => Some (0%N, rest)
  | Decimal.D0 _ => None
  | _ =>
      let n := N.of_uint ds in
      if (n <? 2 ^ 32)%N then Some (n, rest) else None
  end.

(** The input after a given text at its head. *)
Fixpoint expect (text s : string) : option string :=
  match text, s with
  | EmptyString, _ => Some s
  | String c text', String d s' =>
      if Ascii.eqb c d then expect text' s' else None
  | String _ _, EmptyString => None
  end.

(** *** Decoding what the encoder wrote *)

Lemma append_assoc (a b c : string) : (a ++ b) ++ c = a ++ (b ++ c).
Proof. induction a as [|x a IH]; cbn; [|rewrite IH]; reflexivity. Qed.

Lemma expect_app text s : expect text (text ++ s) = Some s.
Proof.
  induction text as [|c text IH]; cbn; [reflexivity|].
  rewrite Ascii.eqb_refl. exact IH.
Qed.

Lemma unquote_escapeByte c x :
  single c = true ->
  unquote (escapeByte c ++ x) = prepend (String c "") (unquote x).
Proof.
  destruct c as [[] [] [] [] [] [] [] []]; intros H;
    try (vm_compute in H; discriminate H); reflexivity.
Qed.

Lemma high_byte c :
  single c = false ->
  Ascii.eqb c dquote = false /\ Ascii.eqb c backslash = false /\
  (code c <? 0x20)%N = false.
Proof.
  destruct c as [[] [] [] [] [] [] [] []]; intros H;
    try (vm_compute in H; discriminate H); repeat split.
Qed.

Lemma unquote_seq2 b0 b1 x :
  single b0 = false -> seq2 b0 b1 = true ->
  unquote (String b0 (String b1 x))
  = prepend (String b0 (String b1 "")) (unquote x).
Proof.
  intros Hs H2. destruct (high_byte b0 Hs) as (Hq & Hb & Hc).
  cbn [unquote]. rewrite Hq, Hb, Hc, Hs, H2. reflexivity.
Qed.

Lemma unquote_seq3 b0 b1 b2 x :
  single b0 = false -> seq2 b0 b1 = false -> seq3 b0 b1 b2 = true ->
  unquote (String b0 (String b1 (String b2 x)))
  = prepend (String b0 (String b1 (String b2 ""))) (unquote x).
Proof.
  intros Hs H2 H3. destruct (high_byte b0 Hs) as (Hq & Hb & Hc).
  cbn [unquote]. rewrite Hq, Hb, Hc, Hs, H2, H3. reflexivity.
Qed.

Lemma unquote_seq4 b0 b1 b2 b3 x :
  single b0 = false -> seq2 b0 b1 = false -> seq3 b0 b1 b2 = false ->
  seq4 b0 b1 b2 b3 = true ->
  unquote (String b0 (String b1 (String b2 (String b3 x))))
  = prepend (String b0 (String b1 (String b2 (String b3 "")))) (unquote x).
Proof.
  intros Hs H2 H3 H4. destruct (high_byte b0 Hs) as (Hq & Hb & Hc).
  cbn [unquote]. rewrite Hq, Hb, Hc, Hs, H2, H3, H4. reflexivity.
Qed.

Lemma between_exact n c : (n < 256)%N -> between n n c = true -> c = char n.
Proof.
  unfold between, code, char. intros Hn H.
  apply andb_true_iff in H. destruct H as [H1 H2].
  apply N.leb_le in H1, H2.
  rewrite <- (ascii_N_embedding c). f_equal. lia.
Qed.

Lemma lineSeparator_inv b0 b1 b2 :
  lineSeparator b0 b1 b2 = true ->
  b0 = char 0xE2 /\ b1 = char 0x80 /\ (b2 = char 0xA8 \/ b2 = char 0xA9).
Proof.
  unfold lineSeparator. rewrite !andb_true_iff. intros [[H0 H1] H2].
  split; [apply between_exact; [reflexivity | exact H0]|].
  split; [apply between_exact; [reflexivity | exact H1]|].
  unfold between, code, char in *. apply andb_true_iff in H2.
  destruct H2 as [Hl Hu]. apply N.leb_le in Hl, Hu.
  rewrite <- (ascii_N_embedding b2).
  assert (Hc : N_of_ascii b2 = 0xA8%N \/ N_of_ascii b2 = 0xA9%N) by lia.
  destruct Hc as [-> | ->]; auto.
Qed.

(** Induction along the well-formed sequences of a valid string. *)
Lemma valid_ind (P : string -> Prop) :
  P "" ->
  (forall b0 r, single b0 = true -> P r -> P (String b0 r)) ->
  (forall b0 b1 r,
     single b0 = false -> seq2 b0 b1 = true ->
     P r -> P (String b0 (String b1 r))) ->
  (forall b0 b1 b2 r,
     single b0 = false -> seq2 b0 b1 = false -> seq3 b0 b1 b2 = true ->
     P r -> P (String b0 (String b1 (String b2 r)))) ->
  (forall b0 b1 b2 b3 r,
     single b0 = false -> seq2 b0 b1 = false -> seq3 b0 b1 b2 = false ->
     seq4 b0 b1 b2 b3 = true ->
     P r -> P (String b0 (String b1 (String b2 (String b3 r))))) ->
  forall s, ValidString s = true -> P s.
Proof.
  intros H0 H1 H2 H3 H4 s.
  assert (Hn : forall n s, (String.length s <= n)%nat ->
                           ValidString s = true -> P s).
  { clear s. induction n as [|n IH]; intros s Hlen Hv.
    - destruct s; [exact H0 | cbn in Hlen; lia].
    - destruct s as [|b0 r0]; [exact H0|].
      cbn [ValidString] in Hv. cbn [String.length] in Hlen.
      destruct (single b0) eqn:Es.
      { apply H1; [exact Es | apply IH; [lia | exact Hv]]. }
      destruct r0 as [|b1 r1]; [discriminate|]. cbn [String.length] in Hlen.
      destruct (seq2 b0 b1) eqn:E2.
      { apply H2; auto. apply IH; [lia | exact Hv]. }
      destruct r1 as [|b2 r2]; [discriminate|]. cbn [String.length] in Hlen.
      destruct (seq3 b0 b1 b2) eqn:E3.
      { apply H3; auto. apply IH; [lia | exact Hv]. }
      destruct r2 as [|b3 r3]; [discriminate|]. cbn [String.length] in Hlen.
      destruct (seq4 b0 b1 b2 b3) eqn:E4; [|discriminate].
      apply H4; auto. apply IH; [lia | exact Hv]. }
  apply (Hn (String.length s)). lia.
Qed.

Lemma unquote_quoteBody s :
  ValidString s = true ->
  forall rest, unquote (quoteBody s ++ String dquote rest) = Some (s, rest).
Proof.
  intros Hv. pattern s. revert s Hv. apply valid_ind.
  - intros rest. reflexivity.
  - intros b0 r Hs IH rest. cbn [quoteBody]. rewrite Hs.
    rewrite append_assoc, unquote_escapeByte, IH by exact Hs. reflexivity.
  - intros b0 b1 r Hs H2 IH rest. cbn [quoteBody]. rewrite Hs, H2.
    cbn [append]. rewrite unquote_seq2, IH by assumption. reflexivity.
  - intros b0 b1 b2 r Hs H2 H3 IH rest. cbn [quoteBody]. rewrite Hs, H2, H3.
    destruct (lineSeparator b0 b1 b2) eqn:El.
    + destruct (lineSeparator_inv _ _ _ El) as (-> & -> & [-> | ->]);
        cbn; rewrite IH; reflexivity.
    + cbn [append]. rewrite unquote_seq3, IH by assumption. reflexivity.
  - intros b0 b1 b2 b3 r Hs H2 H3 H4 IH rest. cbn [quoteBody].
    rewrite Hs, H2, H3, H4. cbn [append].
    rewrite unquote_seq4, IH by assumption. reflexivity.
Qed.

Lemma decodeString_encodeString s rest :
  ValidString s = true ->
  decodeString (encodeString s ++ rest) = Some (s, rest).
Proof.
  intros Hv. unfold encodeString, decodeString. cbn [append].
  rewrite Ascii.eqb_refl, append_assoc. cbn [append].
  apply unquote_quoteBody. exact Hv.
Qed.

(** The input goes on with something that is no digit. *)
Definition digitsEnd (rest : string) : Prop :=
  match rest with
  | EmptyString => True
  | String c _ => digitOf c = None
  end.

Lemma digits_string_of_uint d rest :
  digitsEnd rest ->
  digits (DecimalString.NilEmpty.string_of_uint d ++ rest) = (d, rest).
Proof.
  intros Hr.
  induction d as [|d IH|d IH|d IH|d IH|d IH|d IH|d IH|d IH|d IH|d IH];
    cbn [DecimalString.NilEmpty.string_of_uint append digits].
  1: { destruct rest as [|c r]; [reflexivity|].
       cbn [digits]. cbn in Hr. rewrite Hr. reflexivity. }
  all: cbn; rewrite IH; reflexivity.
Qed.

Lemma to_uint_normal n : Decimal.unorm (N.to_uint n) = N.to_uint n.
Proof.
  rewrite <- (DecimalN.Unsigned.of_to n) at 2.
  symmetry. apply DecimalN.Unsigned.to_of.
Qed.

Lemma decodeUint32_formatUint n rest :
  (n < 2 ^ 32)%N -> digitsEnd rest ->
  decodeUint32 (formatUint n ++ rest) = Some (n, rest).
Proof.
  intros Hn Hr. unfold decodeUint32, formatUint.
  rewrite digits_string_of_uint by exact Hr.
  pose proof (to_uint_normal n) as Hnorm.
  pose proof (DecimalN.Unsigned.of_to n) as Hof.
  assert (Hlt : (N.of_uint (N.to_uint n) <? 2 ^ 32)%N = true)
    by (rewrite Hof; apply N.ltb_lt; exact Hn).
  destruct (N.to_uint n) as [|d|d|d|d|d|d|d|d|d|d] eqn:E;
    try (rewrite Hlt, Hof; reflexivity).
  - discriminate Hnorm.
  - destruct d as [|d|d|d|d|d|d|d|d|d|d];
      try (exfalso;
           rewrite DecimalFacts.unorm_D0 in Hnorm;
           match type of Hnorm with
           | Decimal.unorm ?u = _ =>
               pose proof (DecimalFacts.nb_digits_unorm u ltac:(discriminate))
                 as Hnb
           end;
           rewrite Hnorm in Hnb; cbn in Hnb; lia).
    cbn in Hof. subst n. reflexivity.
Qed.

End json.

(** ** Package [core/transaction/payload] *)

Module payload.

Import common serialization.

(** The [Commit] payload; of its fields the ledger reads [SigChain], the
    encoded signature chain. *)
Record Commit : Type := mkCommit { SigChain : bytes }.

Record Subscribe : Type := mkSubscribe {
  Subscriber : bytes;
  Identifier : string;
  Topic : string;
  Bucket : N;                   (* uint32 *)
  Duration : N                  (* uint32 *)
}.

(** Modelled from the spec: the struct [SubscribeInfo], whose declaration is
    missing: the JSON form of a [Subscribe], with the subscriber as
    hexadecimal text, the two strings, and the two numbers. *)
Record SubscribeInfo : Type := mkSubscribeInfo {
  Info_Subscriber : string;
  Info_Identifier : string;
  Info_Topic : string;
  Info_Bucket : N;
  Info_Duration : N
}.

(** The fields of a [Subscribe] are in the range of their Go types. *)
Definition wellTyped (s : Subscribe) : Prop :=
  (Bucket s < 2 ^ 32)%N /\ (Duration s < 2 ^ 32)%N.

(** [Subscribe.Data]. *)
Definition Data (s : Subscribe) (version : byte) : bytes := [x00].

(** [Subscribe.Serialize]; the writer is the sequence of bytes written so
    far; the method drops the errors of the five writes and returns a nil
    error. *)
Definition Serialize (s : Subscribe) (w : bytes) (version : byte)
    : bytes * option error :=
  let w := WriteVarBytes w (Subscriber s) in
  let w := WriteVarString w (Identifier s) in
  let w := WriteVarString w (Topic s) in
  let w := WriteUint32 w (Bucket s) in
  let w := WriteUint32 w (Duration s) in
  (w, None).

(** The error of a field reader, wrapped by [NewDetailErr]. *)
Definition detailed {A : Type} (read : result A) (desc : string) : result A :=
  match read with
  | inl err => inl (NewDetailErr err ErrNoCode desc)
  | inr v => inr v
  end.

(** [Subscribe.Deserialize]; the reader is the input that is left.  The
    result is the value of the receiver after a nil error together with the
    reader; after an error the state of the receiver is not described. *)
Definition Deserialize (r : bytes) (version : byte)
    : result (Subscribe * bytes) :=
  ('(subscriber, r) <-
     detailed (ReadVarBytes r) "[Subscribe], Subscriber Deserialize failed." ;;
   '(identifier, r) <-
     detailed (ReadVarString r) "[Subscribe], Identifier Deserialize failed." ;;
   '(topic, r) <-
     detailed (ReadVarString r) "[Subscribe], Topic Deserialize failed." ;;
   '(bucket, r) <-
     detailed (ReadUint32 r) "[Subscribe], Bucket Deserialize failed." ;;
   '(duration, r) <-
     detailed (ReadUint32 r) "[Subscribe], Duration Deserialize failed." ;;
   inr (mkSubscribe subscriber identifier topic bucket duration, r))%go.

(** [Subscribe.Equal]. *)
Definition Equal (s s2 : Subscribe) : bool :=
  if negb (bytes_Equal (Subscriber s) (Subscriber s2)) then false
  else if negb (String.eqb (Identifier s) (Identifier s2)) then false
  else if negb (String.eqb (Topic s) (Topic s2)) then false
  else if negb (N.eqb (Bucket s) (Bucket s2)) then false
  else if negb (N.eqb (Duration s) (Duration s2)) then false
  else true.

(** Modelled from the spec: [address.MakeAddressString], whose source is
    missing: the identifier, a dot and the hexadecimal text of the key, or
    the hexadecimal text alone when the identifier is empty. *)
Definition MakeAddressString (pubKey : bytes) (identifier : string) : string :=
  match identifier with
  | EmptyString => BytesToHexString pubKey
  | _ => identifier ++ "." ++ BytesToHexString pubKey
  end.

(** [Subscribe.SubscriberString]. *)
Definition SubscriberString (s : Subscribe) : string :=
  MakeAddressString (Subscriber s) (Identifier s).

(** Modelled from the spec: the JSON text of a [SubscribeInfo], whose
    declaration with its field tags is missing: one object with the members
    Subscriber, Identifier, Topic, Bucket and Duration, in this order,
    written by the encoder of the library without white space. *)
Definition member (name : string) : string :=
  json.encodeString name ++ ":".

Definition document (si : SubscribeInfo) : string :=
  "{" ++ member "Subscriber" ++ json.encodeString (Info_Subscriber si)
  ++ "," ++ member "Identifier" ++ json.encodeString (Info_Identifier si)
  ++ "," ++ member "Topic" ++ json.encodeString (Info_Topic si)
  ++ "," ++ member "Bucket" ++ json.formatUint (Info_Bucket si)
  ++ "," ++ member "Duration" ++ json.formatUint (Info_Duration si)
  ++ "}".

Definition libraryMarshal (si : SubscribeInfo) : result string :=
  inr (document si).

Definition option_bind {A B : Type} (x : option A) (f : A -> option B)
    : option B :=
  match x with
  | Some a => f a
  | None => None
  end.

(** The decoder of the library on the documents of the shape above: the
    five members in the order of the fields, no white space between the
    tokens, nothing after the closing brace. *)
Definition decodeCanonical (data : string) : option SubscribeInfo :=
  option_bind (json.expect "{" data) (fun data =>
  option_bind (json.expect (member "Subscriber") data) (fun data =>
  option_bind (json.decodeString data) (fun '(subscriber, data) =>
  option_bind (json.expect "," data) (fun data =>
  option_bind (json.expect (member "Identifier") data) (fun data =>
  option_bind (json.decodeString data) (fun '(identifier, data) =>
  option_bind (json.expect "," data) (fun data =>
  option_bind (json.expect (member "Topic") data) (fun data =>
  option_bind (json.decodeString data) (fun '(topic, data) =>
  option_bind (json.expect "," data) (fun data =>
  option_bind (json.expect (member "Bucket") data) (fun data =>
  option_bind (json.decodeUint32 data) (fun '(bucket, data) =>
  option_bind (json.expect "," data) (fun data =>
  option_bind (json.expect (member "Duration") data) (fun data =>
  option_bind (json.decodeUint32 data) (fun '(duration, data) =>
  match data with
  | "}" => Some (mkSubscribeInfo subscriber identifier topic bucket duration)
  | _ => None
  end))))))))))))))).

(** [json.Unmarshal] into the pointer of [UnmarshalJson], described on the
    documents of that shape and on the document [null].  The decoder of the
    library also accepts documents of other shapes (white space, another
    order of the members, members it skips); those are outside this
    description, which answers them with the error [outsideShape], and no
    statement below relies on that answer. *)
Definition outsideShape : error :=
  callee "json: document outside the described shape".

Definition libraryUnmarshal (data : string) : result (option SubscribeInfo) :=
  if String.eqb data "null" then inr None else
  match decodeCanonical data with
  | Some si => inr (Some si)
  | None => inl outsideShape
  end.

(** *** Sample values *)

Module values.

(** The record of the binary test vector of the specification. *)
Definition vector : Subscribe := mkSubscribe [x0a; x0b] "x" "t" 1 2.

(** A record whose identifier is the single byte [ff], which is no UTF-8. *)
Definition stray : Subscribe :=
  mkSubscribe [x0a; x0b] (String (utf8.char 0xFF) "") "t" 1 2.

(** A document whose Subscriber member is no hexadecimal text. *)
Definition lenient : SubscribeInfo := mkSubscribeInfo "zz" "x" "t" 1 2.

End values.

Section Json.

(** [json.Marshal] and [json.Unmarshal] of the Go library, at the types
    [*SubscribeInfo] and [**SubscribeInfo].  [UnmarshalJson] hands the
    decoder the address of its pointer [si], so the decoder may leave that
    pointer nil without an error (it does so for the document [null]);
    this is the answer [inr None]. *)
Variable json_Marshal : SubscribeInfo -> result string.
Variable json_Unmarshal : string -> result (option SubscribeInfo).

(** [Subscribe.MarshalJson]. *)
Definition MarshalJson (s : Subscribe) : result string :=
  let si := mkSubscribeInfo (BytesToHexString (Subscriber s))
              (Identifier s) (Topic s) (Bucket s) (Duration s) in
  (data <- json_Marshal si ;; inr data)%go.

(** [Subscribe.UnmarshalJson]: the receiver after the call, and the error
    returned. *)
Definition UnmarshalJson (s : Subscribe) (data : string)
    : outcome (Subscribe * option error) :=
  match json_Unmarshal data with
  | inl err => Return (s, Some err)
  | inr None => Panic "runtime error: nil pointer dereference"
  | inr (Some si) =>
      Return
        (mkSubscribe (fst (HexStringToBytes (Info_Subscriber si)))
           (Info_Identifier si) (Info_Topic si) (Info_Bucket si)
           (Info_Duration si),
         None)
  end.

(** C9: when the decoder of the library accepts the document and the text
    of its Subscriber member is no well-formed hexadecimal, UnmarshalJson
    returns a nil error and leaves the receiver with an empty subscriber and
    with the identifier, the topic, the bucket and the duration of the
    document. *)
Theorem UnmarshalJson_malformed_hex s data si err :
  json_Unmarshal data = inr (Some si) ->
  snd (HexStringToBytes (Info_Subscriber si)) = Some err ->
  UnmarshalJson s data =
  Return
    (mkSubscribe [] (Info_Identifier si) (Info_Topic si) (Info_Bucket si)
       (Info_Duration si),
     None).
Proof.
  intros Hdoc Hhex. unfold UnmarshalJson. rewrite Hdoc.
  unfold HexStringToBytes in *.
  destruct (decodeHex (Info_Subscriber si)); [discriminate Hhex | reflexivity].
Qed.

End Json.

(** *** Hexadecimal text *)

Lemma hex_of_byte b :
  let n := Byte.to_N b in
  fromHexChar (hexDigit (n / 16)) = Some (n / 16)%N /\
  fromHexChar (hexDigit (n mod 16)) = Some (n mod 16)%N /\
  byteOfN (16 * (n / 16) + n mod 16) = b.
Proof. destruct b; vm_compute; auto. Qed.

Lemma decodeHex_BytesToHexString data :
  decodeHex (BytesToHexString data) = Some data.
Proof.
  induction data as [|b rest IH]; [reflexivity|].
  cbn [BytesToHexString decodeHex].
  destruct (hex_of_byte b) as (-> & -> & ->). rewrite IH. reflexivity.
Qed.

Lemma HexStringToBytes_BytesToHexString data :
  HexStringToBytes (BytesToHexString data) = (data, None).
Proof.
  unfold HexStringToBytes. rewrite decodeHex_BytesToHexString. reflexivity.
Qed.

Lemma single_hexDigit n : utf8.single (hexDigit n) = true.
Proof.
  destruct n as [|p]; [reflexivity|].
  do 4 (destruct p as [p|p|]; try reflexivity).
Qed.

Lemma ValidString_BytesToHexString data :
  utf8.ValidString (BytesToHexString data) = true.
Proof.
  induction data as [|b rest IH]; [reflexivity|].
  cbn [BytesToHexString utf8.ValidString].
  rewrite !single_hexDigit. exact IH.
Qed.

(** *** The binary form *)

Lemma Serialize_bytes s w version :
  fst (Serialize s w version)
  = (w ++ WriteVarBytes [] (Subscriber s)
       ++ WriteVarString [] (Identifier s)
       ++ WriteVarString [] (Topic s)
       ++ WriteUint32 [] (Bucket s)
       ++ WriteUint32 [] (Duration s))%list.
Proof.
  unfold Serialize. cbn [fst].
  rewrite WriteUint32_app, (WriteUint32_app _ (Bucket s)),
    (WriteVarString_app _ (Topic s)), (WriteVarString_app _ (Identifier s)),
    (WriteVarBytes_app w).
  rewrite <- !List.app_assoc. reflexivity.
Qed.

Lemma Deserialize_Serialize s version version' rest :
  (N.of_nat (List.length (Subscriber s)) <= lengthCap)%N ->
  (N.of_nat (String.length (Identifier s)) <= lengthCap)%N ->
  (N.of_nat (String.length (Topic s)) <= lengthCap)%N ->
  utf8.ValidString (Identifier s) = true ->
  utf8.ValidString (Topic s) = true ->
  wellTyped s ->
  Deserialize (fst (Serialize s [] version) ++ rest)%list version'
  = inr (s, rest).
Proof.
  intros Hs Hi Ht Hvi Hvt [Hb Hd].
  rewrite Serialize_bytes. cbn [app]. rewrite <- !List.app_assoc.
  unfold Deserialize.
  rewrite ReadVarBytes_WriteVarBytes by exact Hs. cbn [detailed].
  rewrite ReadVarString_WriteVarString by assumption. cbn [detailed].
  rewrite ReadVarString_WriteVarString by assumption. cbn [detailed].
  rewrite ReadUint32_WriteUint32 by exact Hb. cbn [detailed].
  rewrite ReadUint32_WriteUint32 by exact Hd. cbn [detailed].
  destruct s; reflexivity.
Qed.

(** *** The JSON form *)

Lemma decodeCanonical_document si :
  utf8.ValidString (Info_Subscriber si) = true ->
  utf8.ValidString (Info_Identifier si) = true ->
  utf8.ValidString (Info_Topic si) = true ->
  (Info_Bucket si < 2 ^ 32)%N -> (Info_Duration si < 2 ^ 32)%N ->
  decodeCanonical (document si) = Some si.
Proof.
  intros Hs Hi Ht Hb Hd. unfold decodeCanonical, document.
  repeat first
    [ rewrite json.expect_app
    | rewrite json.decodeString_encodeString by assumption
    | rewrite json.decodeUint32_formatUint by (assumption || reflexivity)
    | progress cbn [option_bind] ].
  destruct si; reflexivity.
Qed.

Lemma document_not_null si : String.eqb (document si) "null" = false.
Proof. reflexivity. Qed.

Lemma UnmarshalJson_MarshalJson s s0 :
  utf8.ValidString (Identifier s) = true ->
  utf8.ValidString (Topic s) = true ->
  wellTyped s ->
  exists data,
    MarshalJson libraryMarshal s = inr data /\
    UnmarshalJson libraryUnmarshal s0 data = Return (s, None).
Proof.
  intros Hi Ht [Hb Hd]. unfold MarshalJson, libraryMarshal.
  set (si := mkSubscribeInfo _ _ _ _ _).
  exists (document si). split; [reflexivity|].
  unfold UnmarshalJson, libraryUnmarshal.
  rewrite document_not_null, (decodeCanonical_document si); auto.
  - cbn. rewrite HexStringToBytes_BytesToHexString. destruct s; reflexivity.
  - apply ValidString_BytesToHexString.
Qed.

Lemma Equal_refl s : Equal s s = true.
Proof.
  unfold Equal.
  rewrite (proj2 (bytes_Equal_eq _ _) eq_refl), !String.eqb_refl, !N.eqb_refl.
  reflexivity.
Qed.

(** C8, as the code has it: for a Subscribe within the bounds on the three
    lengths whose identifier and topic are valid UTF-8, Serialize returns a
    nil error and Deserialize reads back from its bytes a value Equal to
    the one written, and UnmarshalJson reads back from the text of
    MarshalJson a value Equal to the one marshalled. *)
Theorem Subscribe_round_trip s :
  (List.length (Subscriber s) <= 64)%nat ->
  (String.length (Identifier s) <= 256)%nat ->
  (String.length (Topic s) <= 256)%nat ->
  wellTyped s ->
  utf8.ValidString (Identifier s) = true ->
  utf8.ValidString (Topic s) = true ->
  (forall version version' rest,
     snd (Serialize s [] version) = None /\
     exists s',
       Deserialize (fst (Serialize s [] version) ++ rest)%list version'
       = inr (s', rest) /\
       Equal s' s = true) /\
  (exists data,
     MarshalJson libraryMarshal s = inr data /\
     forall s0, exists s',
       UnmarshalJson libraryUnmarshal s0 data = Return (s', None) /\
       Equal s' s = true).
Proof.
  intros Hs Hi Ht Hw Hvi Hvt. split.
  - intros version version' rest. split; [reflexivity|].
    exists s. split; [|apply Equal_refl].
    apply Deserialize_Serialize; auto; unfold lengthCap; lia.
  - destruct (UnmarshalJson_MarshalJson s s Hvi Hvt Hw) as (data & Hm & _).
    exists data. split; [exact Hm|]. intros s0. exists s.
    split; [|apply Equal_refl].
    destruct (UnmarshalJson_MarshalJson s s0 Hvi Hvt Hw) as (data' & Hm' & Hu).
    rewrite Hm in Hm'. injection Hm' as <-. exact Hu.
Qed.

Example Serialize_vector :
  fst (Serialize values.vector [] x00)
  = [x02; x0a; x0b; x01; x78; x01; x74; x01; x00; x00; x00; x02; x00; x00;
     x00].
Proof. reflexivity. Qed.

Example UnmarshalJson_null :
  UnmarshalJson libraryUnmarshal values.vector "null"
  = Panic "runtime error: nil pointer dereference".
Proof. reflexivity. Qed.

Example Deserialize_stray :
  Deserialize (fst (Serialize values.stray [] x00)) x00
  = inl (NewDetailErr InvalidUtf8 ErrNoCode
           "[Subscribe], Identifier Deserialize failed.").
Proof. reflexivity. Qed.

(** C8 as stated fails: the record [stray] is within the three bounds, but
    the encoder of the library writes the byte [ff] of its identifier as the
    escape of U+FFFD; UnmarshalJson reads the three bytes [ef bf bd] back,
    and the result is not Equal to the record marshalled. *)
Lemma Subscribe_round_trip_stray_byte :
  (List.length (Subscriber values.stray) <= 64)%nat /\
  (String.length (Identifier values.stray) <= 256)%nat /\
  (String.length (Topic values.stray) <= 256)%nat /\
  wellTyped values.stray /\
  exists data s',
    MarshalJson libraryMarshal values.stray = inr data /\
    UnmarshalJson libraryUnmarshal values.stray data = Return (s', None) /\
    Identifier s' = utf8.replacement /\
    Equal s' values.stray = false.
Proof.
  repeat split; try (cbn; lia).
  eexists. eexists. repeat split; vm_compute; reflexivity.
Qed.

Lemma Subscribe_round_trip_witness :
  (forall version version' rest,
     snd (Serialize values.vector [] version) = None /\
     exists s',
       Deserialize (fst (Serialize values.vector [] version) ++ rest)%list
         version'
       = inr (s', rest) /\
       Equal s' values.vector = true) /\
  (exists data,
     MarshalJson libraryMarshal values.vector = inr data /\
     forall s0, exists s',
       UnmarshalJson libraryUnmarshal s0 data = Return (s', None) /\
       Equal s' values.vector = true).
Proof.
  apply (Subscribe_round_trip values.vector).
  - cbn. lia.
  - cbn. lia.
  - cbn. lia.
  - split; reflexivity.
  - reflexivity.
  - reflexivity.
Defined.

Lemma UnmarshalJson_malformed_hex_witness :
  UnmarshalJson libraryUnmarshal values.vector (document values.lenient)
  = Return (mkSubscribe [] "x" "t" 1 2, None).
Proof.
  apply (UnmarshalJson_malformed_hex libraryUnmarshal values.vector
           (document values.lenient) values.lenient
           (callee "encoding/hex: malformed input")).
  - reflexivity.
  - reflexivity.
Defined.

(** *** Equality, errors and the receiver *)

(** X1: Equal returns true exactly for two records with the same
    subscriber bytes, identifier, topic, bucket and duration. *)
Theorem Equal_fields s s2 :
  Equal s s2 = true <->
  Subscriber s = Subscriber s2 /\ Identifier s = Identifier s2 /\
  Topic s = Topic s2 /\ Bucket s = Bucket s2 /\ Duration s = Duration s2.
Proof.
  unfold Equal.
  destruct (bytes_Equal (Subscriber s) (Subscriber s2)) eqn:Es;
    [apply bytes_Equal_eq in Es | ]; cbn [negb].
  2:{ split; [discriminate|]. intros (H & _).
      apply bytes_Equal_eq in H. congruence. }
  destruct (String.eqb_spec (Identifier s) (Identifier s2)); cbn [negb];
    [|split; [discriminate | tauto]].
  destruct (String.eqb_spec (Topic s) (Topic s2)); cbn [negb];
    [|split; [discriminate | tauto]].
  destruct (N.eqb_spec (Bucket s) (Bucket s2)); cbn [negb];
    [|split; [discriminate | tauto]].
  destruct (N.eqb_spec (Duration s) (Duration s2)); cbn [negb];
    [|split; [discriminate | tauto]].
  tauto.
Qed.



(** X3: UnmarshalJson returns an error exactly when json.Unmarshal does,
    it is that error, and the receiver is then left as it was; when it
    returns a nil error, every field of the receiver comes from the
    document, so the result does not depend on what the receiver held
    before. *)
Theorem UnmarshalJson_receiver
    (json_Unmarshal : string -> result (option SubscribeInfo)) s data :
  (forall s' err,
     UnmarshalJson json_Unmarshal s data = Return (s', Some err) <->
     json_Unmarshal data = inl err /\ s' = s) /\
  (forall s',
     UnmarshalJson json_Unmarshal s data = Return (s', None) ->
     forall s0, UnmarshalJson json_Unmarshal s0 data = Return (s', None)).
Proof.
  unfold UnmarshalJson.
  destruct (json_Unmarshal data) as [e | [si|]]; split.
  - intros s' err. split.
    + intros [= <- <-]. auto.
    + intros [[= <-] ->]. reflexivity.
  - discriminate.
  - intros s' err. split; [discriminate | intros [H _]; discriminate].
  - intros s' H s0. exact H.
  - intros s' err. split; [discriminate | intros [H _]; discriminate].
  - discriminate.
Qed.


End payload.

(** ** Package [core/transaction] *)

Module tx.

(** [TransactionType]: [Coinbase] and the remaining type codes, whose
    declarations are missing. *)
Inductive TransactionType : Type :=
| Coinbase
| OtherType (code : N).

(** The dynamic type of the [Payload] interface value; the ledger only
    asks whether it is a [*payload.Commit]. *)
Inductive IPayload : Type :=
| CommitPayload (c : payload.Commit)
| OtherPayload (kind : N).

(** A slice of transactions holds pointers; each of them is taken to point
    to a transaction. *)
Record Transaction : Type := mkTransaction {
  TxType : TransactionType;
  Payload : IPayload
}.

Definition isCoinbase (t : TransactionType) : bool :=
  match t with
  | Coinbase => true
  | OtherType _ => false
  end.

End tx.

(** ** Package [core/ledger]: validation of blocks *)

Module ledger.

Import common tx.

Definition GenesisBlockProposedHeight : Z := 4.

Definition TimestampTolerance : time.Duration := 40 * time.Second.

(** [WinnerType]: the declaration is missing; its two
    named constants are kept symbolic, and [OtherWinner] stands for any
    further value of the underlying integer type. *)
Inductive WinnerType : Type :=
| GenesisSigner
| TxnSigner
| OtherWinner (tag : N).

Record Header : Type := mkHeader {
  PrevBlockHash : Uint256;
  Height : Z;                   (* uint32 *)
  Timestamp : Z;                (* int64, Unix seconds *)
  WinnerHash : Uint256;
  Winner : WinnerType;          (* the field WinnerType *)
  Signer : bytes;
  Signature : bytes
}.

Record Block : Type := mkBlock {
  BlockHeader : Header;         (* the field Header *)
  Transactions : slice Transaction
}.

Record VBlock : Type := mkVBlock {
  VBlock_Block : Block;
  ReceiveTime : Z
}.

Definition isGenesisSigner (w : WinnerType) : bool :=
  match w with
  | GenesisSigner => true
  | _ => false
  end.

(** The error values of the specification, by the text the code gives
    them. *)
Definition EmptyBlock : error := errors_New "empty block".
Definition MissingCoinbase : error :=
  errors_New "first transaction in block is not Coinbase".
Definition DuplicateCoinbase : error :=
  errors_New "Coinbase transaction order is incorrect".
Definition InvalidWinnerType : error :=
  errors_New "invalid winning hash type".
Definition WrongSigner (signer : bytes) : error :=
  fmt_Errorf "invalid block signer public key: %s"
    [ArgStr (BytesToHexString signer)].
Definition StaleTimestamp (timestamp earliest latest : Z) : error :=
  fmt_Errorf "timestamp %d exceed my tolerance [%d, %d]"
    [ArgInt timestamp; ArgInt earliest; ArgInt latest].

Section Admission.

(** The reading [time.Now()] returns when the function runs. *)
Variable now : time.Time.

(** [config.ProposerChangeTime]. *)
Variable ProposerChangeTime : time.Duration.

(** The read interface of [DefaultLedger]: [Blockchain.GetHeader],
    [Blockchain.GetBlockTime], [Store.GetBlockHash], [Store.GetBlock]
    and [Store.GetTransaction].  The reads of one call see one state of the
    store, so each is a function of its key.  A successful read of a block
    or of a transaction yields an object; [GetHeader] may yield a nil
    header without an error, which [HeaderCheck] tests for. *)
Variable GetHeader : Uint256 -> answer (option Header).
Variable GetBlockTime : Uint256 -> answer Z.
Variable GetBlockHash : Z -> answer Uint256.
Variable GetBlock : Uint256 -> answer Block.
Variable GetTransaction : Uint256 -> answer Transaction.

(** [Block.GetSigner]: public key and chord ID of the signer. *)
Variable GetSigner : Block -> answer (bytes * bytes).

(** Package [por]: the signature chain, the decoding of its protobuf
    form into an existing value ([proto.Unmarshal], which returns the
    value as it leaves it and possibly an error), and [GetMiner]. *)
Variable SigChain : Type.
Variable emptySigChain : SigChain.
Variable proto_Unmarshal : bytes -> SigChain -> SigChain * option string.
Variable GetMiner : SigChain -> answer (bytes * bytes).

(** Package [crypto] and [signature.GetHashForSigning]. *)
Variable PubKey : Type.
Variable DecodePoint : bytes -> answer PubKey.
Variable Verify : PubKey -> bytes -> bytes -> option string.
Variable GetHashForSigning : Header -> bytes.

(** The transaction validators of package [transaction]. *)
Variable VerifyTransaction : Transaction -> ErrCode.
Variable VerifyTransactionWithLedger : Transaction -> ErrCode.
Variable VerifyTransactionWithBlock : list Transaction -> ErrCode.

(** [TransactionArray.Iterate]. *)
Fixpoint Iterate (iterable : list Transaction)
    (handler : Transaction -> ErrCode) : ErrCode :=
  match iterable with
  | [] => ErrNoError
  | item :: rest =>
      match handler item with
      | ErrNoError => Iterate rest handler
      | result => result
      end
  end.

(** The loop of [TransactionCheck] over the transactions from index [i]
    on. *)
Fixpoint checkEach (i : nat) (txns : list Transaction) : option error :=
  match txns with
  | [] => None
  | txn :: rest =>
      if negb (Nat.eqb i 0) && isCoinbase (TxType txn) then
        Some (errors_New "Coinbase transaction order is incorrect")
      else
        match VerifyTransaction txn with
        | ErrNoError =>
            match VerifyTransactionWithLedger txn with
            | ErrNoError => checkEach (S i) rest
            | _ => Some (errors_New "transaction history check failed")
            end
        | _ => Some (errors_New "transaction sanity check failed")
        end
  end.

(** [TransactionCheck]. *)
Definition TransactionCheck (block : Block) : outcome (option error) :=
  match Transactions block with
  | nil_slice => Return (Some (errors_New "empty block"))
  | make_slice txns =>
      match nth_error txns 0 with
      | None => Panic "runtime error: index out of range"
      | Some first =>
          if negb (isCoinbase (TxType first)) then
            Return (Some
              (errors_New "first transaction in block is not Coinbase"))
          else
            match checkEach 0 txns with
            | Some e => Return (Some e)
            | None =>
                match VerifyTransactionWithBlock txns with
                | ErrNoError => Return None
                | _ => Return (Some
                         (errors_New "transaction block check failed"))
                end
            end
      end
  end.

(** [HeaderCheck], lines 94 to 112: the genesis block and the time
    difference. *)
Definition timeDifference (header : Header) (receiveTime : Z)
    : result (Block * Z) :=
  (genesisBlockHash <- ask (GetBlockHash 0) ;;
   genesisBlock <- ask (GetBlock genesisBlockHash) ;;
   prevTimestamp <- ask (GetBlockTime (PrevBlockHash header)) ;;
   inr (genesisBlock,
        if prevTimestamp =? Timestamp (BlockHeader genesisBlock) then 0
        else wrap64 (receiveTime - prevTimestamp)))%go.

Definition timeSlot : Z := Z.quot ProposerChangeTime time.Second.

(** [HeaderCheck], lines 114 to 172: the miner who will sign the next
    block, as public key and chord ID. *)
Definition nextSigner (prevHeader : Header) (genesisBlock : Block)
    (timeDiff : Z) : result (bytes * bytes) :=
  (if timeSlot <=? timeDiff then
     let proposerBlockHeight := 0 in
     proposerBlockHash <- ask (GetBlockHash (wrap32 proposerBlockHeight)) ;;
     proposerBlock <- ask (GetBlock proposerBlockHash) ;;
     ask (GetSigner proposerBlock)
   else
     let winnerHash := WinnerHash prevHeader in
     match Winner prevHeader with
     | GenesisSigner => ask (GetSigner genesisBlock)
     | TxnSigner =>
         txn <- ask (GetTransaction winnerHash) ;;
         match Payload txn with
         | CommitPayload payload =>
             let sigchain :=
               fst (proto_Unmarshal (payload.SigChain payload)
                      emptySigChain) in
             ask (GetMiner sigchain)
         | _ => inl (errors_New "invalid transaction type")
         end
     | OtherWinner _ => inr ([], [])
     end)%go.

(** The proposer election of [HeaderCheck], lines 94 to 172. *)
Definition election (header : Header) (receiveTime : Z)
    (prevHeader : Header) : result (bytes * bytes) :=
  (gt <- timeDifference header receiveTime ;;
   nextSigner prevHeader (fst gt) (snd gt))%go.

(** [HeaderCheck], lines 94 to 189: the election, the comparison of its
    public key with the header's signer, and the signature. *)
Definition signerCheck (header : Header) (receiveTime : Z)
    (prevHeader : Header) : option error :=
  match election header receiveTime prevHeader with
  | inl e => Some e
  | inr (publicKey, chordID) =>
      if negb (bytes_Equal publicKey (Signer header)) then
        Some (fmt_Errorf "invalid block signer public key: %s"
                [ArgStr (BytesToHexString (Signer header))])
      else
        match DecodePoint publicKey with
        | inl e => Some (callee e)
        | inr rawPubKey =>
            match Verify rawPubKey (GetHashForSigning header)
                    (Signature header) with
            | Some e => Some (callee e)
            | None => None
            end
        end
  end.

(** [HeaderCheck]. *)
Definition HeaderCheck (header : Header) (receiveTime : Z)
    : option error :=
  let height := Height header in
  if height =? 0 then None else
  match GetHeader (PrevBlockHash header) with
  | inl _ => Some (errors_New "prev header doesn't exist")
  | inr None => Some (errors_New "invalid prev header")
  | inr (Some prevHeader) =>
      if negb (wrap32 (Height prevHeader + 1) =? height) then
        Some (errors_New "invalid header height")
      else if time.After (time.Unix (Timestamp header) 0)
                (time.Add now TimestampTolerance) then
        Some (errors_New "postdated timestamp over tolerance")
      else if Timestamp header <=? Timestamp prevHeader then
        Some (errors_New "invalid header timestamp")
      else if isGenesisSigner (Winner header)
              && (GenesisBlockProposedHeight <=? Height header) then
        Some (errors_New "invalid winning hash type")
      else signerCheck header receiveTime prevHeader
  end.

(** [TimestampCheck]. *)
Definition TimestampCheck (timestamp : Z) : option error :=
  let t := time.Unix timestamp 0 in
  let earliest := time.Add now (- TimestampTolerance) in
  let latest := time.Add now TimestampTolerance in
  if time.Before t earliest || time.After t latest then
    Some (fmt_Errorf "timestamp %d exceed my tolerance [%d, %d]"
            [ArgInt timestamp; ArgInt (time.ToUnix earliest);
             ArgInt (time.ToUnix latest)])
  else None.

(** The signer of the block stored at a height, read through the store:
    the yardstick of the statements on the election. *)
Definition signerAtHeight (h : Z) : result (bytes * bytes) :=
  (hash <- ask (GetBlockHash h) ;;
   blk <- ask (GetBlock hash) ;;
   ask (GetSigner blk))%go.

(** The checks of [HeaderCheck] that come before the one on the
    winner-type (lines 70 to 89) let the header through, with [prevHeader]
    as its predecessor. *)
Definition reachesWinnerTypeCheck (header prevHeader : Header) : Prop :=
  Height header <> 0 /\
  GetHeader (PrevBlockHash header) = inr (Some prevHeader) /\
  wrap32 (Height prevHeader + 1) = Height header /\
  time.After (time.Unix (Timestamp header) 0)
    (time.Add now TimestampTolerance) = false /\
  Timestamp prevHeader < Timestamp header.

(** The header also passes the check on the winner-type (lines 90 to 92) and
    so comes to the election. *)
Definition reachesElection (header prevHeader : Header) : Prop :=
  reachesWinnerTypeCheck header prevHeader /\
  isGenesisSigner (Winner header)
    && (GenesisBlockProposedHeight <=? Height header) = false.

(** A transaction passes the two checks the loop of [TransactionCheck]
    applies to it. *)
Definition passesChecks (txn : Transaction) : Prop :=
  VerifyTransaction txn = ErrNoError /\
  VerifyTransactionWithLedger txn = ErrNoError.

(** *** Transactions *)

Lemma TransactionCheck_nil header :
  TransactionCheck (mkBlock header nil_slice) = Return (Some EmptyBlock).
Proof. reflexivity. Qed.

(** C1, at the input where the code departs from it: a block whose
    transaction slice is empty but not nil gets past the test against nil,
    and the indexing of the first element panics instead of returning the
    empty-block error. *)
Theorem TransactionCheck_empty_not_nil header :
  TransactionCheck (mkBlock header (make_slice [])) =
  Panic "runtime error: index out of range".
Proof. reflexivity. Qed.

Lemma checkEach_rejects txns :
  forall k i txn,
    nth_error txns i = Some txn -> TxType txn = Coinbase ->
    (0 < k + i)%nat ->
    exists e, checkEach k txns = Some e.
Proof.
  induction txns as [|t rest IH]; intros k i txn Hnth Hcb Hpos.
  - destruct i; discriminate.
  - cbn [checkEach]. destruct i as [|i]; cbn [nth_error] in Hnth.
    + injection Hnth as ->. rewrite Hcb. cbn [isCoinbase].
      destruct k; [lia|]. cbn. eauto.
    + destruct (negb (Nat.eqb k 0) && isCoinbase (TxType t)); [eauto|].
      destruct (VerifyTransaction t); eauto.
      destruct (VerifyTransactionWithLedger t); eauto.
      apply (IH (S k) i txn); auto. lia.
Qed.

Lemma checkEach_duplicate txns :
  forall k i txn,
    nth_error txns i = Some txn -> TxType txn = Coinbase ->
    (0 < k + i)%nat ->
    (forall j t, (j < i)%nat -> nth_error txns j = Some t -> passesChecks t) ->
    checkEach k txns = Some DuplicateCoinbase.
Proof.
  induction txns as [|t rest IH]; intros k i txn Hnth Hcb Hpos Hpass.
  - destruct i; discriminate.
  - cbn [checkEach]. destruct i as [|i]; cbn [nth_error] in Hnth.
    + injection Hnth as ->. rewrite Hcb. cbn [isCoinbase].
      destruct k; [lia|]. reflexivity.
    + destruct (negb (Nat.eqb k 0) && isCoinbase (TxType t)); [reflexivity|].
      destruct (Hpass 0%nat t) as [-> ->]; [lia | reflexivity |].
      apply (IH (S k) i txn); auto; [lia|].
      intros j t' Hj Hn. apply (Hpass (S j) t'); [lia | exact Hn].
Qed.

(** C6, as the code has it: a block whose first transaction is not a
    Coinbase fails with MissingCoinbase; a block with a Coinbase at an index
    above 0 is always rejected, and it is rejected with DuplicateCoinbase
    when its first transaction is a Coinbase and the transactions before
    that index pass the two per-transaction checks. *)
Theorem TransactionCheck_coinbase_position block txns :
  Transactions block = make_slice txns ->
  (forall first rest,
     txns = first :: rest -> TxType first <> Coinbase ->
     TransactionCheck block = Return (Some MissingCoinbase)) /\
  (forall i txn,
     (0 < i)%nat -> nth_error txns i = Some txn -> TxType txn = Coinbase ->
     (exists e, TransactionCheck block = Return (Some e)) /\
     ((exists first, nth_error txns 0 = Some first /\
                     TxType first = Coinbase) ->
      (forall j t, (j < i)%nat -> nth_error txns j = Some t ->
                   passesChecks t) ->
      TransactionCheck block = Return (Some DuplicateCoinbase))).
Proof.
  intros Hb. unfold TransactionCheck. rewrite Hb. split.
  - intros first rest -> Hne. cbn [nth_error].
    destruct (TxType first); [congruence | reflexivity].
  - intros i txn Hi Hnth Hcb. split.
    + destruct txns as [|first rest]; [destruct i; discriminate|].
      cbn [nth_error].
      destruct (negb (isCoinbase (TxType first))); [eauto|].
      destruct (checkEach_rejects (first :: rest) 0 i txn Hnth Hcb) as [e ->];
        [lia | eauto].
    + intros (first & H0 & Hfirst) Hpass. rewrite H0, Hfirst.
      cbn [isCoinbase negb].
      rewrite (checkEach_duplicate txns 0 i txn Hnth Hcb); auto; lia.
Qed.

(** *** The header: winner-type *)

Lemma HeaderCheck_at_winner_type header receiveTime prevHeader :
  reachesWinnerTypeCheck header prevHeader ->
  HeaderCheck header receiveTime =
  if isGenesisSigner (Winner header)
     && (GenesisBlockProposedHeight <=? Height header)
  then Some InvalidWinnerType
  else signerCheck header receiveTime prevHeader.
Proof.
  intros (Hh & Hget & Hnext & Hpost & Hmono). unfold HeaderCheck.
  apply Z.eqb_neq in Hh. rewrite Hh, Hget, Hnext, Z.eqb_refl, Hpost.
  cbn [negb]. apply Z.leb_gt in Hmono. rewrite Hmono. reflexivity.
Qed.

Lemma election_not_InvalidWinnerType header receiveTime prevHeader :
  election header receiveTime prevHeader <> inl InvalidWinnerType.
Proof.
  unfold election, timeDifference, nextSigner, ask, InvalidWinnerType.
  repeat case_scrutinee; cbn; congruence.
Qed.

Lemma signerCheck_not_InvalidWinnerType header receiveTime prevHeader :
  signerCheck header receiveTime prevHeader <> Some InvalidWinnerType.
Proof.
  unfold signerCheck.
  pose proof (election_not_InvalidWinnerType header receiveTime prevHeader)
    as He.
  destruct (election header receiveTime prevHeader) as [e | [pk cid]].
  - congruence.
  - unfold InvalidWinnerType. repeat case_scrutinee; congruence.
Qed.

Lemma HeaderCheck_InvalidWinnerType_origin header receiveTime :
  HeaderCheck header receiveTime = Some InvalidWinnerType ->
  exists prevHeader,
    reachesWinnerTypeCheck header prevHeader /\
    Winner header = GenesisSigner /\
    GenesisBlockProposedHeight <= Height header.
Proof.
  unfold HeaderCheck, InvalidWinnerType. intros H.
  destruct (Z.eqb_spec (Height header) 0) as [|Hh]; [discriminate|].
  destruct (GetHeader (PrevBlockHash header)) as [|[prevHeader|]] eqn:Hget;
    try discriminate.
  destruct (Z.eqb_spec (wrap32 (Height prevHeader + 1)) (Height header))
    as [Hnext|]; cbn [negb] in H; [|discriminate].
  destruct (time.After _ _) eqn:Hpost; [discriminate|].
  destruct (Z.leb_spec (Timestamp header) (Timestamp prevHeader));
    [discriminate|].
  exists prevHeader.
  assert (Hr : reachesWinnerTypeCheck header prevHeader)
    by (unfold reachesWinnerTypeCheck; auto).
  split; [exact Hr|].
  destruct (isGenesisSigner (Winner header)
            && (GenesisBlockProposedHeight <=? Height header)) eqn:E.
  - apply andb_true_iff in E. destruct E as [Eg El].
    apply Z.leb_le in El. destruct (Winner header); try discriminate. auto.
  - exfalso.
    exact (signerCheck_not_InvalidWinnerType header receiveTime prevHeader H).
Qed.

(** C5: HeaderCheck fails with InvalidWinnerType exactly when the header
    comes through the earlier checks, its winner-type is GenesisSigner and
    its height is at least GenesisBlockProposedHeight (4); with
    GenesisSigner at height 3 the header passes on to the election, at
    height 4 it is rejected. *)
Theorem HeaderCheck_winner_type_domain header receiveTime :
  (HeaderCheck header receiveTime = Some InvalidWinnerType <->
   exists prevHeader,
     reachesWinnerTypeCheck header prevHeader /\
     Winner header = GenesisSigner /\
     GenesisBlockProposedHeight <= Height header) /\
  (forall prevHeader,
     reachesWinnerTypeCheck header prevHeader ->
     Winner header = GenesisSigner ->
     (Height header = 3 ->
      HeaderCheck header receiveTime
        = signerCheck header receiveTime prevHeader /\
      HeaderCheck header receiveTime <> Some InvalidWinnerType) /\
     (Height header = 4 ->
      HeaderCheck header receiveTime = Some InvalidWinnerType)).
Proof.
  split; [split|].
  - apply HeaderCheck_InvalidWinnerType_origin.
  - intros (prevHeader & Hr & Hw & Hge).
    rewrite (HeaderCheck_at_winner_type _ receiveTime _ Hr), Hw.
    apply Z.leb_le in Hge. cbn [isGenesisSigner andb]. rewrite Hge.
    reflexivity.
  - intros prevHeader Hr Hw.
    rewrite (HeaderCheck_at_winner_type _ receiveTime _ Hr), Hw.
    split; intros ->.
    + cbn. split; [reflexivity|]. apply signerCheck_not_InvalidWinnerType.
    + reflexivity.
Qed.

(** *** The header: election of the proposer *)

Lemma election_unfold header receiveTime prevHeader genesisBlock timeDiff :
  timeDifference header receiveTime = inr (genesisBlock, timeDiff) ->
  election header receiveTime prevHeader =
  nextSigner prevHeader genesisBlock timeDiff.
Proof. intros H. unfold election. rewrite H. reflexivity. Qed.

(** C3: when the time difference reaches the time slot, the election yields
    the signer of the block at height 0, whatever the header, its
    predecessor, the height of the chain and the number of slots that have
    passed. *)
Theorem election_fallback header receiveTime prevHeader genesisBlock timeDiff :
  timeDifference header receiveTime = inr (genesisBlock, timeDiff) ->
  timeSlot <= timeDiff ->
  election header receiveTime prevHeader = signerAtHeight 0.
Proof.
  intros Htd Hslot. rewrite (election_unfold _ _ _ _ _ Htd).
  unfold nextSigner. apply Z.leb_le in Hslot. rewrite Hslot. reflexivity.
Qed.

(** C2, as the code has it: with the predecessor at height 2 and its
    timestamp equal to the one of the genesis block, the time difference is
    taken as 0 whatever the receive time (here 120 s later, with a slot of
    60 s), so the election runs its normal path; it yields the signer of
    the block at height 0 when the predecessor's winner-type is
    GenesisSigner, and a header that has come to the election with another
    signer is rejected with WrongSigner. *)
Theorem election_prev_at_genesis_time header receiveTime prevHeader
    genesisBlockHash genesisBlock prevTimestamp :
  GetBlockHash 0 = inr genesisBlockHash ->
  GetBlock genesisBlockHash = inr genesisBlock ->
  GetBlockTime (PrevBlockHash header) = inr prevTimestamp ->
  Height prevHeader = 2 ->
  prevTimestamp = Timestamp (BlockHeader genesisBlock) ->
  receiveTime - prevTimestamp = 120 ->
  ProposerChangeTime = 60 * time.Second ->
  Winner prevHeader = GenesisSigner ->
  timeDifference header receiveTime = inr (genesisBlock, 0) /\
  election header receiveTime prevHeader = signerAtHeight 0 /\
  (forall publicKey chordID,
     signerAtHeight 0 = inr (publicKey, chordID) ->
     reachesElection header prevHeader ->
     Signer header <> publicKey ->
     HeaderCheck header receiveTime = Some (WrongSigner (Signer header))).
Proof.
  intros Hh Hb Ht _ Heq _ Hslot Hw.
  assert (Htd : timeDifference header receiveTime = inr (genesisBlock, 0)).
  { unfold timeDifference. rewrite Hh. cbn [ask]. rewrite Hb. cbn [ask].
    rewrite Ht. cbn [ask]. rewrite Heq, Z.eqb_refl. reflexivity. }
  assert (He : election header receiveTime prevHeader = signerAtHeight 0).
  { rewrite (election_unfold _ _ _ _ _ Htd).
    unfold nextSigner, timeSlot. rewrite Hslot, Hw.
    unfold signerAtHeight. rewrite Hh. cbn [ask]. rewrite Hb. reflexivity. }
  split; [exact Htd|]. split; [exact He|].
  intros publicKey chordID Hs [Hr Hdom] Hne.
  rewrite (HeaderCheck_at_winner_type _ receiveTime _ Hr), Hdom.
  unfold signerCheck. rewrite He, Hs.
  destruct (bytes_Equal publicKey (Signer header)) eqn:E; [|reflexivity].
  apply bytes_Equal_eq in E. congruence.
Qed.

(** C4, as the code has it: in the normal path a predecessor whose
    winner-type is neither GenesisSigner nor TxnSigner makes the election
    return an empty public key without an error; HeaderCheck does not fail
    with InvalidWinnerType, and it fails with WrongSigner when the header's
    signer is not empty. *)
Theorem HeaderCheck_unknown_winner_type header receiveTime prevHeader
    genesisBlock timeDiff :
  reachesElection header prevHeader ->
  timeDifference header receiveTime = inr (genesisBlock, timeDiff) ->
  timeDiff < timeSlot ->
  Winner prevHeader <> GenesisSigner ->
  Winner prevHeader <> TxnSigner ->
  election header receiveTime prevHeader = inr ([], []) /\
  HeaderCheck header receiveTime <> Some InvalidWinnerType /\
  (Signer header <> [] ->
   HeaderCheck header receiveTime = Some (WrongSigner (Signer header))).
Proof.
  intros [Hr Hdom] Htd Hlt Hng Hnt.
  assert (He : election header receiveTime prevHeader = inr ([], [])).
  { rewrite (election_unfold _ _ _ _ _ Htd). unfold nextSigner.
    apply Z.leb_gt in Hlt. rewrite Hlt.
    destruct (Winner prevHeader); [congruence | congruence | reflexivity]. }
  rewrite (HeaderCheck_at_winner_type _ receiveTime _ Hr), Hdom.
  split; [exact He|]. split.
  - apply signerCheck_not_InvalidWinnerType.
  - intros Hs. unfold signerCheck. rewrite He.
    destruct (Signer header); [congruence | reflexivity].
Qed.

(** C10: in the normal path with a predecessor of winner-type TxnSigner,
    the election fails with the error of the transaction lookup when that
    fails; when the transaction carries a Commit payload, the election is
    what GetMiner returns on the signature chain as proto.Unmarshal leaves
    it, whether or not the decoding reported an error. *)
Theorem election_discards_unmarshal_error header receiveTime prevHeader
    genesisBlock timeDiff :
  timeDifference header receiveTime = inr (genesisBlock, timeDiff) ->
  timeDiff < timeSlot ->
  Winner prevHeader = TxnSigner ->
  (forall e,
     GetTransaction (WinnerHash prevHeader) = inl e ->
     election header receiveTime prevHeader = inl (callee e)) /\
  (forall txn commit sigchain decodeErr,
     GetTransaction (WinnerHash prevHeader) = inr txn ->
     Payload txn = CommitPayload commit ->
     proto_Unmarshal (payload.SigChain commit) emptySigChain
       = (sigchain, decodeErr) ->
     election header receiveTime prevHeader = ask (GetMiner sigchain)).
Proof.
  intros Htd Hlt Hw. rewrite (election_unfold _ _ _ _ _ Htd).
  unfold nextSigner. apply Z.leb_gt in Hlt. rewrite Hlt, Hw. split.
  - intros e ->. reflexivity.
  - intros txn commit sigchain decodeErr Hget Hp Hu.
    rewrite Hget. cbn [ask]. rewrite Hp, Hu. reflexivity.
Qed.

(** *** Timestamps of gossip *)

Lemma Add_seconds k :
  time.plausible now -> - 2 ^ 40 <= k <= 2 ^ 40 ->
  time.Add now (k * time.Second)
  = time.mkTime (time.sec now + k) (time.nsec now).
Proof.
  intros [Hn Hs] Hk. unfold time.Add, time.Second.
  rewrite Z.quot_mul, Z.rem_mul by lia. rewrite Z.add_0_r.
  destruct (Z.leb_spec 1000000000 (time.nsec now)); [lia|].
  destruct (Z.ltb_spec (time.nsec now) 0); [lia|].
  rewrite wrap64_small; [reflexivity|].
  unfold is_int64, time.unixToInternal in *. lia.
Qed.

Lemma TimestampCheck_window ts :
  time.plausible now ->
  TimestampCheck ts =
  let t := time.mkTime (wrap64 (ts + time.unixToInternal)) 0 in
  if time.Before t (time.mkTime (time.sec now - 40) (time.nsec now))
     || time.After t (time.mkTime (time.sec now + 40) (time.nsec now))
  then Some (StaleTimestamp ts (time.ToUnix now - 40) (time.ToUnix now + 40))
  else None.
Proof.
  intros Hp. unfold TimestampCheck, TimestampTolerance, StaleTimestamp.
  replace (- (40 * time.Second)) with ((-40) * time.Second)
    by (unfold time.Second; lia).
  rewrite !Add_seconds by (auto; lia).
  destruct Hp as [Hn Hs]. unfold time.ToUnix, time.Unix. cbn.
  unfold time.unixToInternal in *.
  rewrite (wrap64_small (time.sec now + -40 - 62135596800)),
    (wrap64_small (time.sec now + 40 - 62135596800)),
    (wrap64_small (time.sec now - 62135596800))
    by (unfold is_int64; lia).
  replace (time.sec now + -40) with (time.sec now - 40) by lia.
  replace (time.sec now - 40 - 62135596800)
    with (time.sec now - 62135596800 - 40) by lia.
  replace (time.sec now + 40 - 62135596800)
    with (time.sec now - 62135596800 + 40) by lia.
  reflexivity.
Qed.

Lemma TimestampCheck_accepts ts :
  time.plausible now -> is_int64 ts ->
  TimestampCheck ts = None <->
  Z.abs (ts * 1000000000 - time.nanos now) <= 40 * 1000000000.
Proof.
  intros Hp Hts. rewrite (TimestampCheck_window ts Hp). cbv zeta.
  destruct Hp as [Hn Hs].
  unfold time.Before, time.After, time.nanos; cbn [time.sec time.nsec].
  unfold is_int64, time.unixToInternal in *.
  assert (Hw : wrap64 (ts + 62135596800) = ts + 62135596800
               \/ wrap64 (ts + 62135596800) < 0
                  /\ 2 ^ 63 <= ts + 62135596800).
  { destruct (Z_lt_le_dec (ts + 62135596800) (2 ^ 63)).
    - left. apply wrap64_small; unfold is_int64; lia.
    - right. rewrite wrap64_above by lia. lia. }
  set (w := wrap64 (ts + 62135596800)) in *.
  destruct (_ || _) eqn:E.
  - split; [discriminate|]. intros H. exfalso.
    apply orb_true_iff in E.
    rewrite !orb_true_iff, !andb_true_iff, !Z.ltb_lt, !Z.eqb_eq in E. lia.
  - split; [|reflexivity]. intros _.
    apply orb_false_iff in E.
    rewrite !orb_false_iff, !andb_false_iff, !Z.ltb_ge, !Z.eqb_neq in E. lia.
Qed.

Lemma TimestampCheck_verdict ts :
  time.plausible now ->
  TimestampCheck ts = None \/
  TimestampCheck ts =
    Some (StaleTimestamp ts (time.ToUnix now - 40) (time.ToUnix now + 40)).
Proof.
  intros Hp. rewrite (TimestampCheck_window ts Hp). cbv zeta.
  destruct (_ || _); auto.
Qed.

(** C7: TimestampCheck accepts a timestamp exactly when it lies within
    TimestampTolerance (40 s) of the clock, on either side: a timestamp 40 s
    behind or ahead of the clock passes, one 41 s behind or ahead fails with
    StaleTimestamp. *)
Theorem TimestampCheck_tolerance ts :
  time.plausible now -> is_int64 ts ->
  (TimestampCheck ts = None <->
   Z.abs (ts * 1000000000 - time.nanos now) <= 40 * 1000000000) /\
  (ts * 1000000000 = time.nanos now - 40 * 1000000000 ->
   TimestampCheck ts = None) /\
  (ts * 1000000000 = time.nanos now - 41 * 1000000000 ->
   TimestampCheck ts =
     Some (StaleTimestamp ts (time.ToUnix now - 40) (time.ToUnix now + 40))) /\
  (ts * 1000000000 = time.nanos now + 40 * 1000000000 ->
   TimestampCheck ts = None) /\
  (ts * 1000000000 = time.nanos now + 41 * 1000000000 ->
   TimestampCheck ts =
     Some (StaleTimestamp ts (time.ToUnix now - 40) (time.ToUnix now + 40))).
Proof.
  intros Hp Hts.
  pose proof (TimestampCheck_accepts ts Hp Hts) as Hiff.
  pose proof (TimestampCheck_verdict ts Hp) as Hv.
  split; [exact Hiff|].
  repeat split; intros Heq.
  - apply Hiff. lia.
  - destruct Hv as [Hv|Hv]; [|exact Hv]. apply Hiff in Hv. lia.
  - apply Hiff. lia.
  - destruct Hv as [Hv|Hv]; [|exact Hv]. apply Hiff in Hv. lia.
Qed.

(** *** Iteration over the transactions *)

(** X4: Iterate returns ErrNoError exactly when the handler returns
    ErrNoError on every transaction of the array. *)
Theorem Iterate_ErrNoError iterable handler :
  Iterate iterable handler = ErrNoError <->
  Forall (fun item => handler item = ErrNoError) iterable.
Proof.
  induction iterable as [|item rest IH]; cbn [Iterate].
  - split; auto.
  - destruct (handler item) eqn:E.
    + rewrite IH. split; intros H.
      * constructor; assumption.
      * inversion H; assumption.
    + split; [discriminate|]. intros H. inversion H. congruence.
    + split; [discriminate|]. intros H. inversion H. congruence.
Qed.

(** X5: Iterate returns a code other than ErrNoError exactly when that code
    is the handler's result on the first transaction on which the handler
    does not return ErrNoError; the transactions after it play no part. *)
Theorem Iterate_first_failure iterable handler result :
  result <> ErrNoError ->
  Iterate iterable handler = result <->
  exists before item after,
    iterable = (before ++ item :: after)%list /\
    Forall (fun x => handler x = ErrNoError) before /\
    handler item = result.
Proof.
  intros Hne. induction iterable as [|head rest IH]; cbn [Iterate].
  - split; [congruence|]. intros (before & item & after & H & _).
    destruct before; discriminate.
  - split.
    + intros H. destruct (handler head) eqn:E.
      * apply IH in H. destruct H as (before & item & after & -> & Hb & Hi).
        exists (head :: before), item, after. repeat split; auto.
      * exists [], head, rest. repeat split; auto. congruence.
      * exists [], head, rest. repeat split; auto. congruence.
    + intros (before & item & after & Heq & Hb & Hi).
      destruct before as [|b before]; cbn in Heq; injection Heq as -> ->.
      * rewrite Hi. destruct result; congruence.
      * inversion Hb as [|? ? Hhead Hrest]; subst. rewrite Hhead.
        apply IH. exists before, item, after. auto.
Qed.

(** *** The verdicts of TransactionCheck *)

Definition SanityCheckFailed : error :=
  errors_New "transaction sanity check failed".
Definition HistoryCheckFailed : error :=
  errors_New "transaction history check failed".

Lemma checkEach_later txns :
  forall k,
    checkEach (S k) txns = None <->
    Forall (fun txn => TxType txn <> Coinbase /\ passesChecks txn) txns.
Proof.
  unfold passesChecks.
  induction txns as [|t rest IH]; intros k; cbn [checkEach].
  - split; auto.
  - cbn [Nat.eqb negb andb].
    destruct (TxType t) eqn:Et; cbn [isCoinbase].
    + split; [discriminate|]. intros H.
      inversion H as [|? ? [Hc _] _]. congruence.
    + destruct (VerifyTransaction t) eqn:Ev;
        [destruct (VerifyTransactionWithLedger t) eqn:El|..];
        try (split; [discriminate|]; intros H;
             inversion H as [|? ? (_ & Hv & Hl) _]; congruence).
      rewrite IH. split; intros H.
      * constructor; [|exact H]. rewrite Et. repeat split; congruence.
      * inversion H; assumption.
Qed.

Lemma checkEach_first first rest :
  checkEach 0 (first :: rest) = None <->
  passesChecks first /\
  Forall (fun txn => TxType txn <> Coinbase /\ passesChecks txn) rest.
Proof.
  cbn [checkEach Nat.eqb negb andb]. unfold passesChecks at 1.
  destruct (VerifyTransaction first) eqn:Ev;
    [destruct (VerifyTransactionWithLedger first) eqn:El|..];
    try (split; [discriminate|]; intros [[Hv Hl] _]; congruence).
  rewrite checkEach_later. split; [intros H | intros [_ H]]; auto.
Qed.

(** X6: TransactionCheck admits a block exactly when its transaction slice
    has a first element, that element is a Coinbase, no later element is
    one, every element passes VerifyTransaction and
    VerifyTransactionWithLedger, and VerifyTransactionWithBlock passes on
    the whole slice. *)
Theorem TransactionCheck_accepts block :
  TransactionCheck block = Return None <->
  exists first rest,
    Transactions block = make_slice (first :: rest) /\
    TxType first = Coinbase /\
    Forall (fun txn => TxType txn <> Coinbase) rest /\
    Forall passesChecks (first :: rest) /\
    VerifyTransactionWithBlock (first :: rest) = ErrNoError.
Proof.
  unfold TransactionCheck.
  destruct (Transactions block) as [|[|first rest]]; cbn [nth_error].
  - split; [discriminate|]. intros (f & r & H & _). discriminate.
  - split; [discriminate|]. intros (f & r & H & _). discriminate.
  - split.
    + intros H.
      destruct (TxType first) eqn:Et; cbn [isCoinbase negb] in H;
        [|discriminate].
      destruct (checkEach 0 (first :: rest)) eqn:Ec; [discriminate|].
      apply checkEach_first in Ec. destruct Ec as [Hf Hr].
      destruct (VerifyTransactionWithBlock (first :: rest)) eqn:Eb;
        try discriminate.
      exists first, rest. repeat split; auto.
      * eapply Forall_impl; [|exact Hr]. cbn. tauto.
      * constructor; [exact Hf|].
        eapply Forall_impl; [|exact Hr]. cbn. tauto.
    + intros (f & r & [= <- <-] & Et & Hnc & Hp & Hb).
      rewrite Et. cbn [isCoinbase negb].
      inversion Hp as [|? ? Hf Hr]; subst.
      assert (Ec : checkEach 0 (first :: rest) = None).
      { apply checkEach_first. split; [exact Hf|].
        apply Forall_forall. intros t Ht. split.
        - exact (proj1 (Forall_forall _ _) Hnc t Ht).
        - exact (proj1 (Forall_forall _ _) Hr t Ht). }
      rewrite Ec, Hb. reflexivity.
Qed.


Lemma checkEach_first_failure txns :
  forall k i txn,
    nth_error txns i = Some txn ->
    (forall j t, (j < i)%nat -> nth_error txns j = Some t ->
                 passesChecks t) ->
    (forall j t, (j <= i)%nat -> (0 < k + j)%nat ->
                 nth_error txns j = Some t -> TxType t <> Coinbase) ->
    (VerifyTransaction txn <> ErrNoError ->
     checkEach k txns = Some SanityCheckFailed) /\
    (VerifyTransaction txn = ErrNoError ->
     VerifyTransactionWithLedger txn <> ErrNoError ->
     checkEach k txns = Some HistoryCheckFailed).
Proof.
  induction txns as [|t rest IH]; intros k i txn Hnth Hpass Hnc.
  - destruct i; discriminate.
  - cbn [checkEach].
    assert (Hg : negb (Nat.eqb k 0) && isCoinbase (TxType t) = false).
    { destruct k; [reflexivity|]. cbn [Nat.eqb negb andb].
      destruct (TxType t) eqn:Et; [|reflexivity].
      exfalso. apply (Hnc 0%nat t); [lia | lia | reflexivity | exact Et]. }
    rewrite Hg. destruct i as [|i]; cbn [nth_error] in Hnth.
    + injection Hnth as ->. split.
      * intros Hv. destruct (VerifyTransaction txn); [congruence|..];
          reflexivity.
      * intros -> Hl.
        destruct (VerifyTransactionWithLedger txn); [congruence|..];
          reflexivity.
    + destruct (Hpass 0%nat t) as [-> ->]; [lia | reflexivity |].
      apply (IH (S k) i txn Hnth).
      * intros j t' Hj Hn. apply (Hpass (S j) t'); [lia | exact Hn].
      * intros j t' Hj _ Hn. apply (Hnc (S j) t'); [lia | lia | exact Hn].
Qed.

(** X8: in a block that starts with a Coinbase, the first transaction that
    fails VerifyTransaction or VerifyTransactionWithLedger decides the
    error, when no Coinbase stands between index 1 and it: the sanity check
    is reported before the history check, whatever the later transactions
    and VerifyTransactionWithBlock would give. *)
Theorem TransactionCheck_first_failing_transaction block first rest i txn :
  Transactions block = make_slice (first :: rest) ->
  TxType first = Coinbase ->
  nth_error (first :: rest) i = Some txn ->
  (forall j t, (j < i)%nat -> nth_error (first :: rest) j = Some t ->
               passesChecks t) ->
  (forall j t, (0 < j <= i)%nat -> nth_error (first :: rest) j = Some t ->
               TxType t <> Coinbase) ->
  (VerifyTransaction txn <> ErrNoError ->
   TransactionCheck block = Return (Some SanityCheckFailed)) /\
  (VerifyTransaction txn = ErrNoError ->
   VerifyTransactionWithLedger txn <> ErrNoError ->
   TransactionCheck block = Return (Some HistoryCheckFailed)).
Proof.
  intros Hb Hf Hnth Hpass Hnc. unfold TransactionCheck.
  rewrite Hb. cbn [nth_error]. rewrite Hf. cbn [isCoinbase negb].
  destruct (checkEach_first_failure (first :: rest) 0 i txn Hnth Hpass)
    as [Hs Hh].
  - intros j t Hj Hpos Hn. apply (Hnc j t); [lia | exact Hn].
  - split.
    + intros Hv. rewrite (Hs Hv). reflexivity.
    + intros Hv Hl. rewrite (Hh Hv Hl). reflexivity.
Qed.

(** *** The verdicts of HeaderCheck *)

Definition is_uint32 (z : Z) : Prop := 0 <= z < 2 ^ 32.

Definition PostdatedTimestamp : error :=
  errors_New "postdated timestamp over tolerance".

(** The checks of [HeaderCheck] before the one on the clock (lines 70 to
    83) let the header through, with [prevHeader] as its predecessor. *)
Definition reachesPostdatedCheck (header prevHeader : Header) : Prop :=
  Height header <> 0 /\
  GetHeader (PrevBlockHash header) = inr (Some prevHeader) /\
  wrap32 (Height prevHeader + 1) = Height header.

Lemma bytes_Equal_refl a : bytes_Equal a a = true.
Proof. apply bytes_Equal_eq. reflexivity. Qed.

Lemma HeaderCheck_admitted header receiveTime :
  HeaderCheck header receiveTime = None ->
  Height header = 0 \/
  exists prevHeader chordID rawPubKey,
    reachesElection header prevHeader /\
    election header receiveTime prevHeader = inr (Signer header, chordID) /\
    DecodePoint (Signer header) = inr rawPubKey /\
    Verify rawPubKey (GetHashForSigning header) (Signature header) = None.
Proof.
  unfold HeaderCheck. intros H.
  destruct (Z.eqb_spec (Height header) 0) as [|Hh]; [left; assumption|].
  right.
  destruct (GetHeader (PrevBlockHash header)) as [|[prevHeader|]] eqn:Hget;
    try discriminate.
  destruct (Z.eqb_spec (wrap32 (Height prevHeader + 1)) (Height header))
    as [Hnext|]; cbn [negb] in H; [|discriminate].
  destruct (time.After _ _) eqn:Hpost; [discriminate|].
  destruct (Z.leb_spec (Timestamp header) (Timestamp prevHeader));
    [discriminate|].
  destruct (isGenesisSigner (Winner header)
            && (GenesisBlockProposedHeight <=? Height header)) eqn:Hdom;
    [discriminate|].
  unfold signerCheck in H.
  destruct (election header receiveTime prevHeader) as [|[pk cid]] eqn:He;
    [discriminate|].
  destruct (bytes_Equal pk (Signer header)) eqn:Eb; cbn [negb] in H;
    [|discriminate].
  apply bytes_Equal_eq in Eb. subst pk.
  destruct (DecodePoint (Signer header)) as [|key] eqn:Hd; [discriminate|].
  destruct (Verify key _ _) eqn:Hv; [discriminate|].
  exists prevHeader, cid, key.
  unfold reachesElection, reachesWinnerTypeCheck. auto 10.
Qed.

(** X9: HeaderCheck admits a header exactly when its height is 0, or it
    comes through the checks against its predecessor to the election, the
    election yields the header's own signer as public key, that key decodes
    to a curve point and the signature verifies under it. *)
Theorem HeaderCheck_accepts header receiveTime :
  HeaderCheck header receiveTime = None <->
  Height header = 0 \/
  exists prevHeader chordID rawPubKey,
    reachesElection header prevHeader /\
    election header receiveTime prevHeader = inr (Signer header, chordID) /\
    DecodePoint (Signer header) = inr rawPubKey /\
    Verify rawPubKey (GetHashForSigning header) (Signature header) = None.
Proof.
  split; [apply HeaderCheck_admitted|].
  intros [Hh | (prevHeader & cid & key & [Hr Hdom] & He & Hd & Hv)].
  - unfold HeaderCheck. rewrite Hh. reflexivity.
  - rewrite (HeaderCheck_at_winner_type _ receiveTime _ Hr), Hdom.
    unfold signerCheck. rewrite He, bytes_Equal_refl. cbn [negb].
    rewrite Hd, Hv. reflexivity.
Qed.

(** X10: when the heights in the store are 32-bit values, a header that
    HeaderCheck admits at a height other than 0 has a stored predecessor
    whose height is exactly one less (the 32-bit addition cannot have
    wrapped) and whose timestamp is strictly smaller; and a header of
    winner-type GenesisSigner is admitted below height 4 only. *)
Theorem HeaderCheck_links_to_predecessor header receiveTime :
  (forall hash stored,
     GetHeader hash = inr (Some stored) -> is_uint32 (Height stored)) ->
  Height header <> 0 ->
  HeaderCheck header receiveTime = None ->
  exists prevHeader,
    GetHeader (PrevBlockHash header) = inr (Some prevHeader) /\
    Height header = Height prevHeader + 1 /\
    Timestamp prevHeader < Timestamp header /\
    (Winner header = GenesisSigner ->
     Height header < GenesisBlockProposedHeight).
Proof.
  intros Hstore Hh H. apply HeaderCheck_admitted in H.
  destruct H as [H | (prevHeader & _ & _ & [Hr Hdom] & _)]; [contradiction|].
  destruct Hr as (_ & Hget & Hnext & _ & Hmono).
  exists prevHeader. split; [exact Hget|].
  pose proof (Hstore _ _ Hget) as Hu. unfold is_uint32 in Hu.
  split; [|split; [exact Hmono|]].
  - unfold wrap32 in Hnext.
    destruct (Z.eq_dec (Height prevHeader + 1) (2 ^ 32)) as [E|E].
    + rewrite E, Z.mod_same in Hnext by lia. congruence.
    + rewrite Z.mod_small in Hnext by lia. congruence.
  - intros Hw. rewrite Hw in Hdom. cbn [isGenesisSigner andb] in Hdom.
    apply Z.leb_gt in Hdom. exact Hdom.
Qed.

Lemma election_errors_New header receiveTime prevHeader text :
  election header receiveTime prevHeader = inl (errors_New text) ->
  text = "invalid transaction type".
Proof.
  unfold election, timeDifference, nextSigner, ask.
  repeat case_scrutinee; cbn; intros H; try discriminate;
    injection H as <-; reflexivity.
Qed.

Lemma signerCheck_errors_New header receiveTime prevHeader text :
  signerCheck header receiveTime prevHeader = Some (errors_New text) ->
  text = "invalid transaction type".
Proof.
  unfold signerCheck.
  destruct (election header receiveTime prevHeader) as [e | [pk cid]] eqn:He.
  - intros [= ->]. exact (election_errors_New _ _ _ _ He).
  - repeat case_scrutinee; discriminate.
Qed.

Lemma HeaderCheck_at_postdated header receiveTime prevHeader :
  reachesPostdatedCheck header prevHeader ->
  HeaderCheck header receiveTime = Some PostdatedTimestamp <->
  time.After (time.Unix (Timestamp header) 0)
    (time.Add now TimestampTolerance) = true.
Proof.
  intros (Hh & Hget & Hnext). unfold HeaderCheck.
  apply Z.eqb_neq in Hh. rewrite Hh, Hget, Hnext, Z.eqb_refl. cbn [negb].
  destruct (time.After _ _); [split; reflexivity|].
  split; [|discriminate]. unfold PostdatedTimestamp.
  destruct (Timestamp header <=? Timestamp prevHeader); [discriminate|].
  destruct (isGenesisSigner (Winner header)
            && (GenesisBlockProposedHeight <=? Height header));
    [discriminate|].
  intros H. apply signerCheck_errors_New in H. discriminate.
Qed.

Lemma HeaderCheck_postdated_origin header receiveTime :
  HeaderCheck header receiveTime = Some PostdatedTimestamp ->
  time.After (time.Unix (Timestamp header) 0)
    (time.Add now TimestampTolerance) = true.
Proof.
  intros H. pose proof H as H'. unfold HeaderCheck in H'.
  destruct (Z.eqb_spec (Height header) 0) as [|Hh]; [discriminate|].
  destruct (GetHeader (PrevBlockHash header)) as [|[prevHeader|]] eqn:Hget;
    try discriminate.
  destruct (Z.eqb_spec (wrap32 (Height prevHeader + 1)) (Height header))
    as [Hnext|]; cbn [negb] in H'; [|discriminate].
  apply (HeaderCheck_at_postdated header receiveTime prevHeader);
    [unfold reachesPostdatedCheck; auto | exact H].
Qed.

(** X11: for a header that has come to the check on the clock, HeaderCheck
    fails with the postdated-timestamp error exactly when the timestamp is
    more than 40 s ahead of the clock and adding the offset of the Unix
    epoch to it does not leave the 64-bit range; a timestamp above
    2^63 - 62135596800 wraps around in time.Unix and is not found to be
    postdated. *)
Theorem HeaderCheck_postdated header receiveTime prevHeader :
  reachesPostdatedCheck header prevHeader ->
  time.plausible now -> is_int64 (Timestamp header) ->
  HeaderCheck header receiveTime = Some PostdatedTimestamp <->
  Timestamp header + time.unixToInternal < 2 ^ 63 /\
  time.nanos now + 40 * 1000000000 < Timestamp header * 1000000000.
Proof.
  intros Hr Hp Hts.
  rewrite (HeaderCheck_at_postdated header receiveTime prevHeader Hr).
  unfold TimestampTolerance. rewrite Add_seconds by (auto; lia).
  destruct Hp as [Hn Hs]. unfold time.Unix. cbn.
  unfold time.After, time.nanos; cbn [time.sec time.nsec].
  set (ts := Timestamp header) in *.
  unfold is_int64, time.unixToInternal in *.
  assert (Hw : wrap64 (ts + 62135596800) = ts + 62135596800
               /\ ts + 62135596800 < 2 ^ 63
               \/ wrap64 (ts + 62135596800) < 0
                  /\ 2 ^ 63 <= ts + 62135596800).
  { destruct (Z_lt_le_dec (ts + 62135596800) (2 ^ 63)).
    - left. split; [|assumption]. apply wrap64_small; unfold is_int64; lia.
    - right. rewrite wrap64_above by lia. lia. }
  set (w := wrap64 (ts + 62135596800)) in *.
  rewrite orb_true_iff, andb_true_iff, !Z.ltb_lt, Z.eqb_eq. lia.
Qed.

(** X12: a timestamp that TimestampCheck accepts is never the reason for
    HeaderCheck, run at the same clock reading, to fail with the
    postdated-timestamp error. *)
Theorem TimestampCheck_excludes_postdated header receiveTime :
  TimestampCheck (Timestamp header) = None ->
  HeaderCheck header receiveTime <> Some PostdatedTimestamp.
Proof.
  unfold TimestampCheck. intros Ht Hh.
  apply HeaderCheck_postdated_origin in Hh. rewrite Hh, orb_true_r in Ht.
  discriminate.
Qed.

(** X13: in whole seconds, with u the Unix time of the clock, TimestampCheck
    accepts the timestamps from u - 40 to u + 40 when the clock stands on a
    full second and those from u - 39 to u + 40 otherwise; in the latter
    case the timestamp u - 40 is rejected although the error names it as
    the lower end of the tolerance. *)
Theorem TimestampCheck_whole_seconds ts :
  time.plausible now -> is_int64 ts ->
  (TimestampCheck ts = None <->
   time.ToUnix now - (if time.nsec now =? 0 then 40 else 39) <= ts
     <= time.ToUnix now + 40) /\
  (time.nsec now <> 0 ->
   TimestampCheck (time.ToUnix now - 40) =
   Some (StaleTimestamp (time.ToUnix now - 40) (time.ToUnix now - 40)
           (time.ToUnix now + 40))).
Proof.
  intros Hp Hts.
  assert (Hu : time.ToUnix now = time.sec now - time.unixToInternal).
  { unfold time.ToUnix. apply wrap64_small. destruct Hp as [_ Hs].
    unfold is_int64, time.unixToInternal in *. lia. }
  assert (Hiff : forall t, is_int64 t ->
            TimestampCheck t = None <->
            time.ToUnix now - (if time.nsec now =? 0 then 40 else 39) <= t
              <= time.ToUnix now + 40).
  { intros t Ht. rewrite (TimestampCheck_accepts t Hp Ht), Hu.
    unfold time.nanos. destruct Hp as [Hn _].
    destruct (Z.eqb_spec (time.nsec now) 0); lia. }
  split; [apply Hiff; exact Hts|].
  intros Hnz.
  destruct (TimestampCheck_verdict (time.ToUnix now - 40) Hp) as [H|H];
    [|exact H].
  exfalso. apply Hiff in H.
  - destruct (Z.eqb_spec (time.nsec now) 0); [contradiction | lia].
  - rewrite Hu. destruct Hp as [_ Hs].
    unfold is_int64, time.unixToInternal in *. lia.
Qed.

(** *** The election and the receive time *)

Lemma timeDifference_genesis header receiveTime genesisBlock timeDiff :
  timeDifference header receiveTime = inr (genesisBlock, timeDiff) ->
  exists genesisBlockHash,
    GetBlockHash 0 = inr genesisBlockHash /\
    GetBlock genesisBlockHash = inr genesisBlock.
Proof.
  unfold timeDifference, ask.
  destruct (GetBlockHash 0) as [|hash]; [discriminate|].
  destruct (GetBlock hash) as [|blk] eqn:Hb; [discriminate|].
  destruct (GetBlockTime _); [discriminate|].
  intros [= <- _]. eauto.
Qed.

(** X14: a header that HeaderCheck admits on top of a predecessor of
    winner-type GenesisSigner is signed with the public key of the signer
    of the block at height 0, on the normal path of the election as on the
    fallback path, whatever the receive time. *)
Theorem HeaderCheck_bootstrap_signer header receiveTime prevHeader :
  Height header <> 0 ->
  GetHeader (PrevBlockHash header) = inr (Some prevHeader) ->
  Winner prevHeader = GenesisSigner ->
  HeaderCheck header receiveTime = None ->
  exists chordID, signerAtHeight 0 = inr (Signer header, chordID).
Proof.
  intros Hh Hget Hw H. apply HeaderCheck_admitted in H.
  destruct H as [H | (prev & cid & _ & [Hr _] & He & _)]; [contradiction|].
  destruct Hr as (_ & Hget' & _). rewrite Hget in Hget'.
  injection Hget' as <-. exists cid. rewrite <- He. symmetry.
  unfold election in *.
  destruct (timeDifference header receiveTime) as [|[gb td]] eqn:Htd;
    [discriminate|].
  destruct (timeDifference_genesis _ _ _ _ Htd) as (gh & Hgh & Hgb).
  cbn [fst snd]. unfold nextSigner.
  destruct (timeSlot <=? td); [reflexivity|].
  rewrite Hw. unfold signerAtHeight. rewrite Hgh. cbn [ask]. rewrite Hgb.
  reflexivity.
Qed.

(** X15: when the stored time of the predecessor equals the timestamp of
    the genesis block, the time difference is 0 at every receive time, so
    neither the election nor the verdict of HeaderCheck depends on when the
    header was received. *)
Theorem HeaderCheck_at_genesis_timestamp header genesisBlockHash genesisBlock
    receiveTime receiveTime' :
  GetBlockHash 0 = inr genesisBlockHash ->
  GetBlock genesisBlockHash = inr genesisBlock ->
  GetBlockTime (PrevBlockHash header)
    = inr (Timestamp (BlockHeader genesisBlock)) ->
  timeDifference header receiveTime = inr (genesisBlock, 0) /\
  (forall prevHeader,
     election header receiveTime prevHeader
     = election header receiveTime' prevHeader) /\
  HeaderCheck header receiveTime = HeaderCheck header receiveTime'.
Proof.
  intros Hgh Hgb Ht.
  assert (Htd : forall rt, timeDifference header rt = inr (genesisBlock, 0)).
  { intros rt. unfold timeDifference. rewrite Hgh. cbn [ask].
    rewrite Hgb. cbn [ask]. rewrite Ht. cbn [ask].
    rewrite Z.eqb_refl. reflexivity. }
  assert (He : forall prevHeader,
            election header receiveTime prevHeader
            = election header receiveTime' prevHeader).
  { intros prevHeader. unfold election. rewrite !Htd. reflexivity. }
  split; [apply Htd|]. split; [exact He|].
  unfold HeaderCheck, signerCheck.
  destruct (GetHeader (PrevBlockHash header)) as [|[prevHeader|]];
    try reflexivity.
  rewrite He. reflexivity.
Qed.

(** X16: HeaderCheck depends on the receive time only through the side of
    the time slot it falls on: two receive times that are both less than a
    slot, or both at least a slot, after the stored time of the predecessor
    give the same verdict. *)
Theorem HeaderCheck_receive_time header prevTimestamp receiveTime
    receiveTime' :
  GetBlockTime (PrevBlockHash header) = inr prevTimestamp ->
  is_int64 (receiveTime - prevTimestamp) ->
  is_int64 (receiveTime' - prevTimestamp) ->
  (receiveTime - prevTimestamp < timeSlot <->
   receiveTime' - prevTimestamp < timeSlot) ->
  HeaderCheck header receiveTime = HeaderCheck header receiveTime'.
Proof.
  intros Ht Hi Hi' Hside.
  assert (He : forall prevHeader,
            election header receiveTime prevHeader
            = election header receiveTime' prevHeader).
  { intros prevHeader. unfold election, timeDifference. rewrite Ht.
    destruct (ask (GetBlockHash 0)) as [|hash]; [reflexivity|].
    destruct (ask (GetBlock hash)) as [|genesisBlock]; [reflexivity|].
    cbn [ask fst snd].
    destruct (prevTimestamp =? Timestamp (BlockHeader genesisBlock));
      [reflexivity|].
    rewrite !wrap64_small by assumption. unfold nextSigner.
    replace (timeSlot <=? receiveTime' - prevTimestamp)
      with (timeSlot <=? receiveTime - prevTimestamp); [reflexivity|].
    destruct (Z.leb_spec timeSlot (receiveTime - prevTimestamp)),
      (Z.leb_spec timeSlot (receiveTime' - prevTimestamp));
      try reflexivity; lia. }
  unfold HeaderCheck, signerCheck.
  destruct (GetHeader (PrevBlockHash header)) as [|[prevHeader|]];
    try reflexivity.
  rewrite He. reflexivity.
Qed.

End Admission.

(** *** A sample chain

    A small ledger on which the statements above are exercised: a genesis
    block signed by key [01], a predecessor at height 2 and candidate
    headers at height 3. *)

Module sample.

Definition hashOf (b : byte) : Uint256 := (List.repeat x00 31 ++ [b])%list.

Definition clock : time.Time := time.mkTime (time.unixToInternal + 2000) 500.

Definition changeTime : time.Duration := 60 * time.Second.

Definition coinbase : Transaction := mkTransaction Coinbase (OtherPayload 0).

Definition transfer : Transaction :=
  mkTransaction (OtherType 16) (OtherPayload 16).

(** A commit whose signature chain decodes, and one whose bytes do not. *)
Definition commit : Transaction :=
  mkTransaction (OtherType 66)
    (CommitPayload (payload.mkCommit [x0a; x02])).

Definition brokenCommit : Transaction :=
  mkTransaction (OtherType 66) (CommitPayload (payload.mkCommit [xff])).

Definition genesisHeader : Header :=
  mkHeader (hashOf x00) 0 1000 (hashOf x00) GenesisSigner [x01] [].

Definition genesisBlock : Block :=
  mkBlock genesisHeader (make_slice [coinbase]).

(** The predecessor, at a height, with a timestamp and a winner-type; its
    winner hash names the transaction [txn] of the store below. *)
Definition prevAt (height timestamp : Z) (w : WinnerType) : Header :=
  mkHeader (hashOf x01) height timestamp (hashOf x77) w [x01] [].

(** A candidate on top of the predecessor. *)
Definition candidate (height : Z) (w : WinnerType) (signer : bytes) : Header :=
  mkHeader (hashOf x02) height 1100 (hashOf x78) w signer [].

Definition notFound {A : Type} : answer A := inl "not found".

Definition header (prev : Header) (h : Uint256) : answer (option Header) :=
  if bytes_Equal h (hashOf x02) then inr (Some prev) else notFound.

Definition blockTime (prev : Header) (h : Uint256) : answer Z :=
  if bytes_Equal h (hashOf x02) then inr (Timestamp prev) else notFound.

Definition blockHash (height : Z) : answer Uint256 :=
  if height =? 0 then inr (hashOf x00) else notFound.

Definition block (h : Uint256) : answer Block :=
  if bytes_Equal h (hashOf x00) then inr genesisBlock else notFound.

Definition transaction (txn : Transaction) (h : Uint256)
    : answer Transaction :=
  if bytes_Equal h (hashOf x77) then inr txn else notFound.

Definition signerOf (b : Block) : answer (bytes * bytes) :=
  inr (Signer (BlockHeader b), []).

(** Signature chains are kept as their bytes; those that start with [0a]
    decode, the others leave the value as it was and report an error; the
    miner of a chain is read off its bytes. *)
Definition unmarshal (data : bytes) (into : bytes)
    : bytes * option string :=
  match data with
  | x0a :: _ => (data, None)
  | _ => (into, Some "proto: cannot parse")
  end.

Definition minerOf (sigchain : bytes) : answer (bytes * bytes) :=
  match sigchain with
  | [] => inl "sigchain has no element"
  | _ => inr (sigchain, [])
  end.

Definition decodePoint (data : bytes) : answer bytes := inr data.

Definition verify (key digest signature : bytes) : option string := None.

Definition hashForSigning (h : Header) : bytes := [].

Definition accept (txn : Transaction) : ErrCode := ErrNoError.

Definition acceptAll (txns : list Transaction) : ErrCode := ErrNoError.

(** The functions of the section on this ledger. *)
Definition timeDifferenceOn (prev : Header) :=
  ledger.timeDifference (blockTime prev) blockHash block.

Definition electionOn (prev : Header) (txn : Transaction) :=
  ledger.election changeTime (blockTime prev) blockHash block
    (transaction txn) signerOf bytes [] unmarshal minerOf.

Definition signerAt :=
  ledger.signerAtHeight blockHash block signerOf.

Definition headerCheckOn (prev : Header) (txn : Transaction) :=
  ledger.HeaderCheck clock changeTime (header prev)
    (blockTime prev) blockHash block (transaction txn) signerOf
    bytes [] unmarshal minerOf bytes decodePoint verify
    hashForSigning.

Definition transactionCheck :=
  ledger.TransactionCheck accept accept acceptAll.

Definition timestampCheck := ledger.TimestampCheck.

End sample.

Import sample.

Example TransactionCheck_empty_not_nil_sample :
  sample.transactionCheck (mkBlock genesisHeader (make_slice []))
  = Panic "runtime error: index out of range"
  /\ sample.transactionCheck (mkBlock genesisHeader nil_slice)
     = Return (Some EmptyBlock).
Proof. split; reflexivity. Qed.

(** C6 as stated fails: in the block [transfer; coinbase] a Coinbase stands
    at index 1, and the check fails with MissingCoinbase, not with
    DuplicateCoinbase. *)
Lemma TransactionCheck_coinbase_after_transfer :
  let block := mkBlock genesisHeader (make_slice [transfer; coinbase]) in
  nth_error (elements (Transactions block)) 1 = Some coinbase /\
  TxType coinbase = Coinbase /\
  sample.transactionCheck block = Return (Some MissingCoinbase) /\
  sample.transactionCheck block <> Return (Some DuplicateCoinbase).
Proof. cbv zeta. repeat split. vm_compute. discriminate. Qed.

Lemma TransactionCheck_coinbase_position_witness :
  let block := mkBlock genesisHeader
                 (make_slice [coinbase; transfer; coinbase]) in
  sample.transactionCheck block = Return (Some DuplicateCoinbase).
Proof.
  cbv zeta. unfold sample.transactionCheck.
  eapply TransactionCheck_coinbase_position
    with (i := 2%nat) (txn := coinbase).
  - reflexivity.
  - lia.
  - reflexivity.
  - reflexivity.
  - exists coinbase. split; reflexivity.
  - intros j t _ _. split; reflexivity.
Defined.

Lemma HeaderCheck_winner_type_domain_witness :
  let prev := prevAt 3 1050 GenesisSigner in
  let header := candidate 4 GenesisSigner [x01] in
  sample.headerCheckOn prev commit header 1060 = Some InvalidWinnerType.
Proof.
  cbv zeta. unfold sample.headerCheckOn.
  eapply HeaderCheck_winner_type_domain
    with (prevHeader := prevAt 3 1050 GenesisSigner).
  - unfold reachesWinnerTypeCheck. repeat split; vm_compute; congruence.
  - reflexivity.
  - reflexivity.
Defined.

Example HeaderCheck_height_3_GenesisSigner :
  let prev := prevAt 2 1050 GenesisSigner in
  sample.headerCheckOn prev commit (candidate 3 GenesisSigner [x01]) 1060
  = None /\
  sample.headerCheckOn prev commit (candidate 3 GenesisSigner [x09]) 1060
  = Some (WrongSigner [x09]).
Proof. split; reflexivity. Qed.

(** C2 as stated fails: the predecessor is at height 2 and carries the
    timestamp of the genesis block, the header arrives 120 s after it and
    the slot is 60 s, yet with a predecessor of winner-type TxnSigner the
    election yields the miner of the signature chain, not the signer of the
    block at height 0, and the candidate signed by that signer is the one
    rejected. *)
Lemma election_prev_at_genesis_time_TxnSigner :
  let prev := prevAt 2 1000 TxnSigner in
  let header := candidate 3 TxnSigner [x01] in
  Height prev = 2 /\
  sample.blockTime prev (PrevBlockHash header)
    = inr (Timestamp (BlockHeader genesisBlock)) /\
  1120 - Timestamp (BlockHeader genesisBlock) = 120 /\
  timeSlot sample.changeTime = 60 /\
  sample.electionOn prev commit header 1120 prev = inr ([x0a; x02], []) /\
  sample.signerAt 0 = inr ([x01], []) /\
  sample.electionOn prev commit header 1120 prev <> sample.signerAt 0 /\
  sample.headerCheckOn prev commit header 1120 = Some (WrongSigner [x01]).
Proof. cbv zeta. repeat split. vm_compute. discriminate. Qed.

Lemma election_prev_at_genesis_time_witness :
  let prev := prevAt 2 1000 GenesisSigner in
  let header := candidate 3 TxnSigner [x09] in
  sample.timeDifferenceOn prev header 1120 = inr (genesisBlock, 0) /\
  sample.electionOn prev commit header 1120 prev = sample.signerAt 0 /\
  sample.headerCheckOn prev commit header 1120 = Some (WrongSigner [x09]).
Proof.
  cbv zeta.
  unfold sample.timeDifferenceOn, sample.electionOn, sample.signerAt,
    sample.headerCheckOn.
  pose proof (election_prev_at_genesis_time sample.clock changeTime
                (header (prevAt 2 1000 GenesisSigner))
                (blockTime (prevAt 2 1000 GenesisSigner)) blockHash
                block (transaction commit) signerOf bytes []
                unmarshal minerOf bytes decodePoint verify
                hashForSigning (candidate 3 TxnSigner [x09]) 1120
                (prevAt 2 1000 GenesisSigner) (hashOf x00) genesisBlock 1000
                eq_refl eq_refl eq_refl eq_refl eq_refl eq_refl eq_refl
                eq_refl) as (Htd & He & Hrej).
  split; [exact Htd|]. split; [exact He|].
  apply (Hrej [x01] []).
  - reflexivity.
  - unfold reachesElection, reachesWinnerTypeCheck.
    repeat split; vm_compute; congruence.
  - discriminate.
Defined.

Lemma election_fallback_witness :
  let prev := prevAt 2 1050 TxnSigner in
  let header := candidate 3 TxnSigner [x01] in
  sample.electionOn prev commit header 1170 prev = sample.signerAt 0.
Proof.
  cbv zeta. unfold sample.electionOn, sample.signerAt.
  eapply election_fallback
    with (genesisBlock := genesisBlock) (timeDiff := 120).
  - reflexivity.
  - vm_compute. discriminate.
Defined.

(** C4 as stated fails: the predecessor's winner-type is neither
    GenesisSigner nor TxnSigner and the election runs its normal path, yet
    HeaderCheck fails with WrongSigner, not with InvalidWinnerType. *)
Lemma HeaderCheck_other_winner_type :
  let prev := prevAt 2 1050 (OtherWinner 2) in
  let header := candidate 3 TxnSigner [x01] in
  sample.timeDifferenceOn prev header 1060 = inr (genesisBlock, 10) /\
  10 < timeSlot sample.changeTime /\
  Winner prev <> GenesisSigner /\ Winner prev <> TxnSigner /\
  sample.headerCheckOn prev commit header 1060 = Some (WrongSigner [x01]) /\
  sample.headerCheckOn prev commit header 1060 <> Some InvalidWinnerType.
Proof. cbv zeta. repeat split; discriminate. Qed.

Lemma HeaderCheck_unknown_winner_type_witness :
  let prev := prevAt 2 1050 (OtherWinner 2) in
  let header := candidate 3 TxnSigner [x01] in
  sample.electionOn prev commit header 1060 prev = inr ([], []) /\
  sample.headerCheckOn prev commit header 1060 <> Some InvalidWinnerType /\
  (Signer header <> [] ->
   sample.headerCheckOn prev commit header 1060
   = Some (WrongSigner (Signer header))).
Proof.
  cbv zeta. unfold sample.electionOn, sample.headerCheckOn.
  eapply HeaderCheck_unknown_winner_type
    with (genesisBlock := genesisBlock) (timeDiff := 10).
  - unfold reachesElection, reachesWinnerTypeCheck.
    repeat split; vm_compute; congruence.
  - reflexivity.
  - reflexivity.
  - discriminate.
  - discriminate.
Defined.

Lemma election_discards_unmarshal_error_witness :
  let prev := prevAt 2 1050 TxnSigner in
  let header := candidate 3 TxnSigner [x01] in
  unmarshal (payload.SigChain (payload.mkCommit [xff])) []
    = ([], Some "proto: cannot parse") /\
  sample.electionOn prev brokenCommit header 1060 prev = ask (minerOf []).
Proof.
  cbv zeta. split; [reflexivity|]. unfold sample.electionOn.
  eapply election_discards_unmarshal_error
    with (genesisBlock := genesisBlock) (timeDiff := 10)
         (txn := brokenCommit) (commit := payload.mkCommit [xff])
         (decodeErr := Some "proto: cannot parse");
    reflexivity.
Defined.

Lemma TimestampCheck_tolerance_witness :
  let reading := time.mkTime (time.unixToInternal + 2000) 0 in
  sample.timestampCheck reading 1960 = None /\
  sample.timestampCheck reading 1959
  = Some (StaleTimestamp 1959 1960 2040) /\
  sample.timestampCheck reading 2040 = None /\
  sample.timestampCheck reading 2041
  = Some (StaleTimestamp 2041 1960 2040).
Proof.
  cbv zeta.
  pose (reading := time.mkTime (time.unixToInternal + 2000) 0).
  assert (Hp : time.plausible reading) by (vm_compute; intuition congruence).
  assert (Hi : forall z, 0 <= z <= 3000 -> is_int64 z)
    by (unfold is_int64; lia).
  split; [|split; [|split]].
  - destruct (TimestampCheck_tolerance reading 1960 Hp (Hi 1960 ltac:(lia)))
      as (_ & H & _).
    apply H. reflexivity.
  - destruct (TimestampCheck_tolerance reading 1959 Hp (Hi 1959 ltac:(lia)))
      as (_ & _ & H & _).
    apply H. reflexivity.
  - destruct (TimestampCheck_tolerance reading 2040 Hp (Hi 2040 ltac:(lia)))
      as (_ & _ & _ & H & _).
    apply H. reflexivity.
  - destruct (TimestampCheck_tolerance reading 2041 Hp (Hi 2041 ltac:(lia)))
      as (_ & _ & _ & _ & H).
    apply H. reflexivity.
Defined.

(** The clock is read with its nanoseconds: half a microsecond into the
    second 2000, a timestamp of 1960 is more than 40 s old. *)
Example TimestampCheck_between_seconds :
  time.ToUnix sample.clock = 2000 /\
  sample.timestampCheck sample.clock 1960
  = Some (StaleTimestamp 1960 1960 2040) /\
  sample.timestampCheck sample.clock 1961 = None.
Proof. repeat split. Qed.


(** *** The chord ID of the elected signer *)

(** The public key in what [GetSigner] or [GetMiner] returns, and in the
    result of the election. *)
Definition publicKeyOf (a : answer (bytes * bytes)) : answer bytes :=
  match a with
  | inl e => inl e
  | inr (publicKey, _) => inr publicKey
  end.

Definition electedKey (r : result (bytes * bytes)) : result bytes :=
  match r with
  | inl e => inl e
  | inr (publicKey, _) => inr publicKey
  end.

Lemma ask_publicKeyOf a a' :
  publicKeyOf a = publicKeyOf a' -> electedKey (ask a) = electedKey (ask a').
Proof.
  destruct a as [e | [pk cid]], a' as [e' | [pk' cid']]; cbn;
    congruence.
Qed.

Section ChordID.

Variable now : time.Time.
Variable ProposerChangeTime : time.Duration.
Variable GetHeader : Uint256 -> answer (option Header).
Variable GetBlockTime : Uint256 -> answer Z.
Variable GetBlockHash : Z -> answer Uint256.
Variable GetBlock : Uint256 -> answer Block.
Variable GetTransaction : Uint256 -> answer Transaction.
Variable SigChain : Type.
Variable emptySigChain : SigChain.
Variable proto_Unmarshal : bytes -> SigChain -> SigChain * option string.
Variable PubKey : Type.
Variable DecodePoint : bytes -> answer PubKey.
Variable Verify : PubKey -> bytes -> bytes -> option string.
Variable GetHashForSigning : Header -> bytes.

(** Two ledgers that name the same public keys and may differ in every
    chord ID. *)
Variables GetSigner GetSigner' : Block -> answer (bytes * bytes).
Variables GetMiner GetMiner' : SigChain -> answer (bytes * bytes).

Hypothesis same_signer :
  forall b, publicKeyOf (GetSigner b) = publicKeyOf (GetSigner' b).
Hypothesis same_miner :
  forall s, publicKeyOf (GetMiner s) = publicKeyOf (GetMiner' s).

Lemma election_electedKey header receiveTime prevHeader :
  electedKey
    (election ProposerChangeTime GetBlockTime GetBlockHash GetBlock
       GetTransaction GetSigner SigChain emptySigChain proto_Unmarshal
       GetMiner header receiveTime prevHeader)
  = electedKey
      (election ProposerChangeTime GetBlockTime GetBlockHash GetBlock
         GetTransaction GetSigner' SigChain emptySigChain proto_Unmarshal
         GetMiner' header receiveTime prevHeader).
Proof.
  unfold election.
  destruct (timeDifference GetBlockTime GetBlockHash GetBlock header
              receiveTime) as [e | [genesisBlock timeDiff]];
    [reflexivity|].
  cbn [fst snd]. unfold nextSigner.
  destruct (timeSlot ProposerChangeTime <=? timeDiff).
  - destruct (ask (GetBlockHash (wrap32 0))) as [e | hash]; [reflexivity|].
    destruct (ask (GetBlock hash)) as [e | blk]; [reflexivity|].
    apply ask_publicKeyOf, same_signer.
  - destruct (Winner prevHeader).
    + apply ask_publicKeyOf, same_signer.
    + destruct (ask (GetTransaction (WinnerHash prevHeader))) as [e | txn];
        [reflexivity|].
      destruct (Payload txn); [|reflexivity].
      apply ask_publicKeyOf, same_miner.
    + reflexivity.
Qed.

(** X17: HeaderCheck does not look at the chord ID of the elected signer:
    on two ledgers whose GetSigner and GetMiner agree on every public key
    (and on every failure) it gives the same verdict, whatever chord IDs
    they return. *)
Theorem HeaderCheck_ignores_chordID header receiveTime :
  HeaderCheck now ProposerChangeTime GetHeader GetBlockTime GetBlockHash
    GetBlock GetTransaction GetSigner SigChain emptySigChain
    proto_Unmarshal GetMiner PubKey DecodePoint Verify GetHashForSigning
    header receiveTime
  = HeaderCheck now ProposerChangeTime GetHeader GetBlockTime GetBlockHash
      GetBlock GetTransaction GetSigner' SigChain emptySigChain
      proto_Unmarshal GetMiner' PubKey DecodePoint Verify GetHashForSigning
      header receiveTime.
Proof.
  unfold HeaderCheck.
  destruct (GetHeader (PrevBlockHash header)) as [|[prevHeader|]];
    try reflexivity.
  unfold signerCheck.
  pose proof (election_electedKey header receiveTime prevHeader) as H.
  destruct (election _ _ _ _ _ GetSigner _ _ _ GetMiner _ _ _)
    as [e | [pk cid]];
    destruct (election _ _ _ _ _ GetSigner' _ _ _ GetMiner' _ _ _)
      as [e' | [pk' cid']];
    cbn [electedKey] in H; try discriminate; injection H as ->;
    reflexivity.
Qed.

End ChordID.

(** *** The further statements on the sample chain *)

(** Validators of the sample: the error code of a transaction is its type
    code, and the ledger knows every transaction but the transfer. *)
Definition codeOf (txn : Transaction) : ErrCode :=
  match TxType txn with
  | Coinbase => ErrNoError
  | OtherType code => ErrCodeOther (Z.of_N code)
  end.

Definition unknownTransfer (txn : Transaction) : ErrCode :=
  match TxType txn with
  | OtherType 16 => ErrCodeOther 45009
  | _ => ErrNoError
  end.

(** A ledger that agrees with [signerOf] and [minerOf] on the public keys
    and returns other chord IDs. *)
Definition signerOf' (b : Block) : answer (bytes * bytes) :=
  inr (Signer (BlockHeader b), [xff; xfe]).

Definition minerOf' (sigchain : bytes) : answer (bytes * bytes) :=
  match sigchain with
  | [] => inl "sigchain has no element"
  | _ => inr (sigchain, [x07])
  end.

(** A candidate at height 3 with a timestamp of its own. *)
Definition candidateAt (timestamp : Z) : Header :=
  mkHeader (hashOf x02) 3 timestamp (hashOf x78) TxnSigner [x01] [].

Lemma Iterate_first_failure_witness :
  Iterate [coinbase; transfer; commit] codeOf = ErrCodeOther 16.
Proof.
  apply Iterate_first_failure; [discriminate|].
  exists [coinbase], transfer, [commit].
  split; [reflexivity|]. split; [|reflexivity].
  constructor; [reflexivity | constructor].
Defined.

Lemma TransactionCheck_first_failing_transaction_witness :
  ledger.TransactionCheck accept unknownTransfer acceptAll
    (mkBlock genesisHeader (make_slice [coinbase; transfer; commit]))
  = Return (Some HistoryCheckFailed).
Proof.
  destruct (TransactionCheck_first_failing_transaction
              accept unknownTransfer acceptAll
              (mkBlock genesisHeader
                 (make_slice [coinbase; transfer; commit]))
              coinbase [transfer; commit] 1%nat transfer)
    as [_ H].
  - reflexivity.
  - reflexivity.
  - reflexivity.
  - intros j t Hj Hn. destruct j; [|lia].
    injection Hn as <-. split; reflexivity.
  - intros j t Hj Hn. destruct j as [|[|j]]; try lia.
    injection Hn as <-. discriminate.
  - apply H; [reflexivity | discriminate].
Defined.

Lemma HeaderCheck_links_to_predecessor_witness :
  let prev := prevAt 2 1050 GenesisSigner in
  let hdr := candidate 3 GenesisSigner [x01] in
  exists prevHeader,
    sample.header prev (PrevBlockHash hdr) = inr (Some prevHeader) /\
    Height hdr = Height prevHeader + 1 /\
    Timestamp prevHeader < Timestamp hdr /\
    (Winner hdr = GenesisSigner -> Height hdr < GenesisBlockProposedHeight).
Proof.
  cbv zeta.
  apply (HeaderCheck_links_to_predecessor sample.clock changeTime
           (header (prevAt 2 1050 GenesisSigner))
           (blockTime (prevAt 2 1050 GenesisSigner)) blockHash
           block (transaction commit) signerOf bytes []
           unmarshal minerOf bytes decodePoint verify
           hashForSigning (candidate 3 GenesisSigner [x01]) 1060).
  - intros hash stored. unfold header.
    destruct (bytes_Equal hash (hashOf x02)); [|discriminate].
    intros [= <-]. unfold is_uint32. cbn. lia.
  - discriminate.
  - reflexivity.
Defined.

Lemma HeaderCheck_postdated_witness :
  sample.headerCheckOn (prevAt 2 1050 TxnSigner) commit (candidateAt 2041)
    1060
  = Some PostdatedTimestamp.
Proof.
  unfold sample.headerCheckOn.
  eapply HeaderCheck_postdated with (prevHeader := prevAt 2 1050 TxnSigner).
  - unfold reachesPostdatedCheck. repeat split; vm_compute; congruence.
  - vm_compute. intuition congruence.
  - unfold is_int64. cbn. lia.
  - split; vm_compute; reflexivity.
Defined.

Lemma TimestampCheck_excludes_postdated_witness :
  sample.headerCheckOn (prevAt 2 1050 TxnSigner) commit (candidateAt 2040)
    1060
  <> Some PostdatedTimestamp.
Proof.
  unfold sample.headerCheckOn.
  apply TimestampCheck_excludes_postdated. reflexivity.
Defined.

Lemma TimestampCheck_whole_seconds_witness :
  sample.timestampCheck sample.clock 1961 = None /\
  sample.timestampCheck sample.clock (time.ToUnix sample.clock - 40)
  = Some (StaleTimestamp 1960 1960 2040).
Proof.
  unfold sample.timestampCheck.
  assert (Hp : time.plausible sample.clock)
    by (vm_compute; intuition congruence).
  assert (Hi : is_int64 1961) by (unfold is_int64; lia).
  destruct (TimestampCheck_whole_seconds sample.clock 1961 Hp Hi)
    as [Hiff H].
  split.
  - apply Hiff. vm_compute. split; discriminate.
  - apply H. discriminate.
Defined.

Lemma HeaderCheck_bootstrap_signer_witness :
  exists chordID, sample.signerAt 0 = inr ([x01], chordID).
Proof.
  apply (HeaderCheck_bootstrap_signer sample.clock changeTime
           (header (prevAt 2 1050 GenesisSigner))
           (blockTime (prevAt 2 1050 GenesisSigner)) blockHash
           block (transaction commit) signerOf bytes []
           unmarshal minerOf bytes decodePoint verify
           hashForSigning (candidate 3 GenesisSigner [x01]) 1060
           (prevAt 2 1050 GenesisSigner)).
  - discriminate.
  - reflexivity.
  - reflexivity.
  - reflexivity.
Defined.

Lemma HeaderCheck_at_genesis_timestamp_witness :
  let prev := prevAt 2 1000 TxnSigner in
  let hdr := candidate 3 TxnSigner [x0a; x02] in
  sample.headerCheckOn prev commit hdr 1001
  = sample.headerCheckOn prev commit hdr 86400.
Proof.
  cbv zeta. unfold sample.headerCheckOn.
  eapply HeaderCheck_at_genesis_timestamp
    with (genesisBlockHash := hashOf x00) (genesisBlock := genesisBlock);
    reflexivity.
Defined.

Lemma HeaderCheck_receive_time_witness :
  let prev := prevAt 2 1050 TxnSigner in
  let hdr := candidate 3 TxnSigner [x0a; x02] in
  sample.headerCheckOn prev commit hdr 1060
  = sample.headerCheckOn prev commit hdr 1109.
Proof.
  cbv zeta. unfold sample.headerCheckOn.
  eapply HeaderCheck_receive_time with (prevTimestamp := 1050).
  - reflexivity.
  - unfold is_int64. lia.
  - unfold is_int64. lia.
  - vm_compute. split; reflexivity.
Defined.

Lemma HeaderCheck_ignores_chordID_witness :
  let prev := prevAt 2 1050 TxnSigner in
  let hdr := candidate 3 TxnSigner [x0a; x02] in
  ledger.HeaderCheck sample.clock changeTime (header prev) (blockTime prev)
    blockHash block (transaction commit) signerOf bytes [] unmarshal
    minerOf bytes decodePoint verify hashForSigning hdr 1060
  = ledger.HeaderCheck sample.clock changeTime (header prev)
      (blockTime prev) blockHash block (transaction commit) signerOf' bytes
      [] unmarshal minerOf' bytes decodePoint verify hashForSigning hdr
      1060.
Proof.
  cbv zeta. apply HeaderCheck_ignores_chordID.
  - intros b. reflexivity.
  - intros s. destruct s; reflexivity.
Defined.

End ledger.
(** ** Package [main]: joining the network *)

Module main.

Local Open Scope list_scope.
Local Open Scope nat_scope.

(** *** [rand.Shuffle] with the swap of [JoinNet] *)

Section Shuffle.

Variable A : Type.

(** The assignment [seeds[i] = x]; an index out of range is dealt with in
    [swap]. *)
Fixpoint update (seeds : list A) (i : nat) (x : A) : list A :=
  match seeds, i with
  | [], _ => []
  | _ :: rest, 0 => x :: rest
  | y :: rest, S i' => y :: update rest i' x
  end.

(** The swap function [JoinNet] hands to [rand.Shuffle]:
    [seeds[i], seeds[j] = seeds[j], seeds[i]]; [None] is the run-time panic
    of an index out of range. *)
Definition swap (seeds : list A) (i j : nat) : option (list A) :=
  match nth_error seeds i, nth_error seeds j with
  | Some x, Some y => Some (update (update seeds i y) j x)
  | _, _ => None
  end.

(** The random source: [Intn n] is the number drawn when [rand.Shuffle]
    asks for one below [n]; within one call every bound is asked for
    once. *)
Variable Intn : nat -> nat.

(** The loop [for ; i > 0; i-- { j := int(r.int31n(int32(i + 1)));
    swap(i, j) }] of [rand.Shuffle]. *)
Fixpoint shuffleFrom (i : nat) (seeds : list A) : option (list A) :=
  match i with
  | 0 => Some seeds
  | S i' =>
      match swap seeds i (Intn (S i)) with
      | Some seeds' => shuffleFrom i' seeds'
      | None => None
      end
  end.

(** [rand.Shuffle(n, swap)], for [n] in the range of [int32]: the loop
    starts at [i := n - 1]. *)
Definition Shuffle (n : nat) (seeds : list A) : option (list A) :=
  shuffleFrom (n - 1) seeds.

End Shuffle.

Arguments update {A} seeds i x.
Arguments swap {A} seeds i j.
Arguments shuffleFrom {A} Intn i seeds.
Arguments Shuffle {A} Intn n seeds.

(** *** [JoinNet] *)

Definition FailedToJoin : error := errors_New "Failed to join the network.".

Section JoinNet.

(** The state [JoinNet] works on: the overlay [nn] with the network behind
    it.  [nn.GetLocalNode()] is read off that state, the lookup at a seed
    ([client.FindSuccessorAddrs]) reads it, and [nn.Join] changes it and
    may fail. *)
Variable World : Type.
Variable LocalNode_Id : World -> bytes.
Variable LocalNode_Addr : World -> string.
Variable FindSuccessorAddrs : string -> bytes -> World -> answer (list string).
Variable Join : string -> World -> World * option string.
Variable Intn : nat -> nat.

(** The inner loop of [JoinNet] (lines 96 to 107), from the value of
    [success] so far. *)
Fixpoint joinEach (succAddrs : list string) (success : bool) (nn : World)
    : bool * World :=
  match succAddrs with
  | [] => (success, nn)
  | succAddr :: rest =>
      if String.eqb succAddr (LocalNode_Addr nn) then
        joinEach rest success nn
      else
        let (nn, err) := Join succAddr nn in
        match err with
        | Some _ => joinEach rest success nn
        | None => joinEach rest true nn
        end
  end.

(** The outer loop of [JoinNet] (lines 88 to 113). *)
Fixpoint trySeeds (seeds : list string) (nn : World)
    : option error * World :=
  match seeds with
  | [] => (Some (errors_New "Failed to join the network."), nn)
  | seed :: rest =>
      match FindSuccessorAddrs seed (LocalNode_Id nn) nn with
      | inl _ => trySeeds rest nn
      | inr succAddrs =>
          let (success, nn) := joinEach succAddrs false nn in
          if success then (None, nn) else trySeeds rest nn
      end
  end.

(** [JoinNet]: the seed list [config.Parameters.SeedList] as the call
    leaves it (the shuffle works in place), the state, and the error. *)
Definition JoinNet (SeedList : list string) (nn : World)
    : outcome (list string * World * option error) :=
  match Shuffle Intn (List.length SeedList) SeedList with
  | None => Panic "runtime error: index out of range"
  | Some seeds =>
      let (err, nn) := trySeeds seeds nn in
      Return (seeds, nn, err)
  end.

End JoinNet.

(** *** The shuffle *)

Lemma length_update {A : Type} (l : list A) :
  forall i x, List.length (update l i x) = List.length l.
Proof.
  induction l as [|a rest IH]; intros i x; [reflexivity|].
  destruct i; cbn; [reflexivity|]. rewrite IH. reflexivity.
Qed.

Lemma update_one {A : Type} (l : list A) :
  forall j y a,
    nth_error l j = Some y ->
    Permutation (y :: update l j a) (a :: l).
Proof.
  induction l as [|b rest IH]; intros j y a Hj.
  - destruct j; discriminate.
  - destruct j as [|j]; cbn in *.
    + injection Hj as ->. apply perm_swap.
    + eapply perm_trans; [apply perm_swap|].
      eapply perm_trans; [apply perm_skip, (IH j y a Hj)|].
      apply perm_swap.
Qed.

Lemma update_two {A : Type} (l : list A) :
  forall i j x y,
    nth_error l i = Some x -> nth_error l j = Some y ->
    Permutation (update (update l i y) j x) l.
Proof.
  induction l as [|a rest IH]; intros i j x y Hi Hj.
  - destruct i; discriminate.
  - destruct i as [|i], j as [|j]; cbn in *.
    + injection Hi as ->. apply Permutation_refl.
    + injection Hi as ->. apply update_one. exact Hj.
    + injection Hj as ->. apply update_one. exact Hi.
    + apply perm_skip. apply IH; assumption.
Qed.

Lemma swap_in_range {A : Type} (l : list A) i j :
  i < List.length l -> j < List.length l ->
  exists l',
    swap l i j = Some l' /\ Permutation l' l /\
    List.length l' = List.length l.
Proof.
  intros Hi Hj. unfold swap.
  destruct (nth_error l i) as [x|] eqn:Ei;
    [|apply nth_error_None in Ei; lia].
  destruct (nth_error l j) as [y|] eqn:Ej;
    [|apply nth_error_None in Ej; lia].
  eexists. split; [reflexivity|]. split.
  - apply update_two; assumption.
  - rewrite !length_update. reflexivity.
Qed.

Lemma shuffleFrom_permutes {A : Type} (Intn : nat -> nat) :
  (forall n, 0 < n -> Intn n < n) ->
  forall i (l : list A),
    i < List.length l \/ i = 0 ->
    exists l', shuffleFrom Intn i l = Some l' /\ Permutation l' l.
Proof.
  intros Hrange. induction i as [|i IH]; intros l Hi.
  - exists l. split; [reflexivity | apply Permutation_refl].
  - cbn [shuffleFrom].
    pose proof (Hrange (S (S i)) ltac:(lia)) as Hj.
    destruct (swap_in_range l (S i) (Intn (S (S i)))) as (l1 & -> & Hp & Hl);
      [lia | lia |].
    destruct (IH l1) as (l' & Hs & Hp'); [lia|].
    exists l'. split; [exact Hs|]. eapply perm_trans; eassumption.
Qed.

Lemma Shuffle_permutes {A : Type} (Intn : nat -> nat) (l : list A) :
  (forall n, 0 < n -> Intn n < n) ->
  exists l', Shuffle Intn (List.length l) l = Some l' /\ Permutation l' l.
Proof.
  intros Hrange. unfold Shuffle.
  apply shuffleFrom_permutes; [exact Hrange|].
  destruct l; cbn; [right; reflexivity | left; lia].
Qed.

(** *** What [JoinNet] does to the seed list and to the state *)

Section JoinNetFacts.

Variable World : Type.
Variable LocalNode_Id : World -> bytes.
Variable LocalNode_Addr : World -> string.
Variable FindSuccessorAddrs : string -> bytes -> World -> answer (list string).
Variable Join : string -> World -> World * option string.
Variable Intn : nat -> nat.

Hypothesis Intn_range : forall n, 0 < n -> Intn n < n.

Lemma trySeeds_error seeds :
  forall nn,
    fst (trySeeds World LocalNode_Id LocalNode_Addr FindSuccessorAddrs Join
           seeds nn) = None \/
    fst (trySeeds World LocalNode_Id LocalNode_Addr FindSuccessorAddrs Join
           seeds nn) = Some FailedToJoin.
Proof.
  induction seeds as [|seed rest IH]; intros nn; cbn [trySeeds].
  - right. reflexivity.
  - destruct (FindSuccessorAddrs seed (LocalNode_Id nn) nn) as [|addrs];
      [apply IH|].
    destruct (joinEach World LocalNode_Addr Join addrs false nn)
      as [[|] nn'];
      [left; reflexivity | apply IH].
Qed.

(** X18: when the random source answers within the bound it is asked for,
    JoinNet does not panic in the swap of the shuffle; it leaves
    config.Parameters.SeedList a permutation of what it was, and the error
    it returns is nil or the failed-to-join error. *)
Theorem JoinNet_permutes_SeedList SeedList nn :
  exists seeds nn' err,
    JoinNet World LocalNode_Id LocalNode_Addr FindSuccessorAddrs Join Intn
      SeedList nn = Return (seeds, nn', err) /\
    Permutation seeds SeedList /\
    (err = None \/ err = Some FailedToJoin).
Proof.
  unfold JoinNet.
  destruct (Shuffle_permutes Intn SeedList Intn_range) as (seeds & -> & Hp).
  pose proof (trySeeds_error seeds nn) as He.
  destruct (trySeeds _ _ _ _ _ seeds nn) as [err nn'].
  exists seeds, nn', err. auto.
Qed.

Section Invariant.

(** A property of the state that every [Join] to an address other than the
    node's own preserves. *)
Variable P : World -> Prop.
Hypothesis Join_preserves :
  forall addr nn,
    addr <> LocalNode_Addr nn -> P nn -> P (fst (Join addr nn)).

Lemma joinEach_preserves succAddrs :
  forall success nn,
    P nn ->
    P (snd (joinEach World LocalNode_Addr Join succAddrs success nn)).
Proof.
  induction succAddrs as [|addr rest IH]; intros success nn Hnn;
    cbn [joinEach]; [exact Hnn|].
  destruct (String.eqb_spec addr (LocalNode_Addr nn)) as [|Hne];
    [apply IH; exact Hnn|].
  pose proof (Join_preserves addr nn Hne Hnn) as Hp.
  destruct (Join addr nn) as [nn' [e|]]; apply IH; exact Hp.
Qed.

Lemma trySeeds_preserves seeds :
  forall nn,
    P nn ->
    P (snd (trySeeds World LocalNode_Id LocalNode_Addr FindSuccessorAddrs
              Join seeds nn)).
Proof.
  induction seeds as [|seed rest IH]; intros nn Hnn; cbn [trySeeds];
    [exact Hnn|].
  destruct (FindSuccessorAddrs seed (LocalNode_Id nn) nn) as [|addrs];
    [apply IH; exact Hnn|].
  pose proof (joinEach_preserves addrs false nn Hnn) as Hp.
  destruct (joinEach World LocalNode_Addr Join addrs false nn)
    as [[|] nn']; [exact Hp | apply IH; exact Hp].
Qed.

(** X19: JoinNet changes the state by calls of Join to addresses other than
    the node's own address only: a property of the state that each such
    call preserves still holds when JoinNet returns, with or without an
    error. *)
Theorem JoinNet_never_joins_self SeedList nn :
  P nn ->
  exists seeds nn' err,
    JoinNet World LocalNode_Id LocalNode_Addr FindSuccessorAddrs Join Intn
      SeedList nn = Return (seeds, nn', err) /\
    P nn'.
Proof.
  unfold JoinNet. intros Hnn.
  destruct (Shuffle_permutes Intn SeedList Intn_range)
    as (shuffled & -> & _).
  pose proof (trySeeds_preserves shuffled nn Hnn) as Hp.
  destruct (trySeeds _ _ _ _ _ shuffled nn) as [e w].
  exists shuffled, w, e. auto.
Qed.

End Invariant.

(** X20: when the lookup fails at every seed of the list, JoinNet returns
    the failed-to-join error without a single call of Join: the state is
    the one it was called with. *)
Theorem JoinNet_no_seed_answers SeedList nn :
  (forall seed w,
     In seed SeedList ->
     exists e, FindSuccessorAddrs seed (LocalNode_Id w) w = inl e) ->
  exists seeds,
    JoinNet World LocalNode_Id LocalNode_Addr FindSuccessorAddrs Join Intn
      SeedList nn = Return (seeds, nn, Some FailedToJoin).
Proof.
  intros Hfail. unfold JoinNet.
  destruct (Shuffle_permutes Intn SeedList Intn_range) as (seeds & -> & Hp).
  exists seeds.
  assert (Hall : forall seed w, In seed seeds ->
            exists e, FindSuccessorAddrs seed (LocalNode_Id w) w = inl e).
  { intros seed w Hin. apply Hfail.
    eapply Permutation_in; [exact Hp | exact Hin]. }
  clear Hp Hfail.
  assert (Ht : trySeeds World LocalNode_Id LocalNode_Addr FindSuccessorAddrs
                 Join seeds nn = (Some FailedToJoin, nn)).
  { induction seeds as [|seed rest IH]; cbn [trySeeds]; [reflexivity|].
    destruct (Hall seed nn (or_introl eq_refl)) as [e ->].
    apply IH. intros s w Hin. apply Hall. right. exact Hin. }
  rewrite Ht. reflexivity.
Qed.

Section Verdicts.

(** The answers of the network do not change while [JoinNet] runs: the
    successors a seed names, the node's own address, and whether a
    [Join] to an address succeeds. *)
Variable successors : string -> answer (list string).
Variable self : string.
Variable refuses : string -> option string.

Hypothesis lookup_steady :
  forall seed w, FindSuccessorAddrs seed (LocalNode_Id w) w = successors seed.
Hypothesis address_steady : forall w, LocalNode_Addr w = self.
Hypothesis join_steady : forall addr w, snd (Join addr w) = refuses addr.

(** A seed through which the network can be joined. *)
Definition joinable (seed : string) : Prop :=
  exists succAddrs succAddr,
    successors seed = inr succAddrs /\ In succAddr succAddrs /\
    succAddr <> self /\ refuses succAddr = None.

Lemma joinEach_success succAddrs :
  forall success nn,
    fst (joinEach World LocalNode_Addr Join succAddrs success nn) = true <->
    success = true \/
    exists succAddr,
      In succAddr succAddrs /\ succAddr <> self /\ refuses succAddr = None.
Proof.
  induction succAddrs as [|addr rest IH]; intros success nn;
    cbn [joinEach fst].
  - split; [auto|]. intros [H | (a & [] & _)]. exact H.
  - rewrite address_steady.
    destruct (String.eqb_spec addr self) as [->|Hne].
    + rewrite IH. split; intros [H | (a & Hin & Ha & Hr)]; auto.
      * right. exists a. cbn. auto.
      * destruct Hin as [<- | Hin]; [contradiction|]. right. eauto.
    + pose proof (join_steady addr nn) as Hj.
      destruct (Join addr nn) as [nn' [e|]]; cbn [snd] in Hj; rewrite IH.
      * split; intros [H | (a & Hin & Ha & Hr)]; auto.
        -- right. exists a. cbn. auto.
        -- destruct Hin as [<- | Hin]; [congruence|]. right. eauto.
      * split; [intros _ | auto]. right. exists addr. cbn. auto.
Qed.

Lemma trySeeds_success seeds :
  forall nn,
    fst (trySeeds World LocalNode_Id LocalNode_Addr FindSuccessorAddrs Join
           seeds nn) = None <->
    exists seed, In seed seeds /\ joinable seed.
Proof.
  induction seeds as [|seed rest IH]; intros nn; cbn [trySeeds].
  - split; [discriminate|]. intros (s & [] & _).
  - rewrite lookup_steady.
    destruct (successors seed) as [e | addrs] eqn:Es.
    + rewrite IH. split; intros (s & Hin & Hs).
      * exists s. cbn. auto.
      * destruct Hin as [<- | Hin]; [|eauto].
        destruct Hs as (a & b & Ha & _). congruence.
    + pose proof (joinEach_success addrs false nn) as Hj.
      destruct (joinEach World LocalNode_Addr Join addrs false nn)
        as [[|] nn']; cbn [fst] in *.
      * split; [intros _ | reflexivity].
        destruct (proj1 Hj eq_refl) as [H | (a & Hin & Ha & Hr)];
          [discriminate|].
        exists seed. split; [left; reflexivity|]. exists addrs, a. auto.
      * rewrite IH. split; intros (s & Hin & Hs).
        -- exists s. cbn. auto.
        -- destruct Hin as [<- | Hin]; [|eauto].
           destruct Hs as (a & b & Ha & Hin & Hb & Hr).
           rewrite Es in Ha. injection Ha as <-.
           assert (false = true); [|discriminate].
           apply Hj. right. eauto.
Qed.

(** X21: when the answers of the network do not change during the call,
    JoinNet returns a nil error exactly when some seed of the configured
    list names a successor other than the node itself that accepts the
    Join, in whatever order the shuffle puts the seeds. *)
Theorem JoinNet_succeeds SeedList nn :
  exists seeds nn' err,
    JoinNet World LocalNode_Id LocalNode_Addr FindSuccessorAddrs Join Intn
      SeedList nn = Return (seeds, nn', err) /\
    (err = None <-> exists seed, In seed SeedList /\ joinable seed).
Proof.
  unfold JoinNet.
  destruct (Shuffle_permutes Intn SeedList Intn_range)
    as (shuffled & -> & Hp).
  pose proof (trySeeds_success shuffled nn) as Ht.
  destruct (trySeeds _ _ _ _ _ shuffled nn) as [e w]. cbn [fst] in Ht.
  exists shuffled, w, e. split; [reflexivity|]. rewrite Ht.
  split; intros (s & Hin & Hs); exists s; (split; [|exact Hs]).
  - eapply Permutation_in; [exact Hp | exact Hin].
  - eapply Permutation_in; [apply Permutation_sym, Hp | exact Hin].
Qed.

End Verdicts.

End JoinNetFacts.

(** *** A sample network

    The state is the list of the addresses joined so far, latest first.
    The seed [seed-a] does not answer, [seed-b] names the node itself and
    two others, of which [node-2] refuses the Join. *)

Module net.

Definition me : string := "node-0".

Definition lookup (seed : string) : answer (list string) :=
  if String.eqb seed "seed-b" then inr ["node-1"; me; "node-2"]%string
  else inl "connection refused"%string.

Definition refusal (addr : string) : option string :=
  if String.eqb addr "node-2" then Some "handshake failed"%string else None.

Definition join (addr : string) (joined : list string)
    : list string * option string :=
  (addr :: joined, refusal addr).

(** The random source: asked for a number below [n], it gives [n - 2] (and
    0 below 2). *)
Definition draw (n : nat) : nat := n - 2.

Definition joinNet (lookupAt : string -> answer (list string)) :=
  JoinNet (list string) (fun _ => []) (fun _ => me)
    (fun seed _ _ => lookupAt seed) join draw.

Definition seedList : list string := ["seed-a"; "seed-b"; "seed-c"]%string.

End net.

Lemma draw_range : forall n, 0 < n -> net.draw n < n.
Proof. unfold net.draw. intros n Hn. lia. Qed.

Lemma JoinNet_permutes_SeedList_witness :
  exists seeds nn' err,
    net.joinNet net.lookup net.seedList [] = Return (seeds, nn', err) /\
    Permutation seeds net.seedList /\
    (err = None \/ err = Some FailedToJoin).
Proof.
  unfold net.joinNet. apply JoinNet_permutes_SeedList. exact draw_range.
Defined.

Lemma JoinNet_never_joins_self_witness :
  exists seeds joined err,
    net.joinNet net.lookup net.seedList [] = Return (seeds, joined, err) /\
    ~ In net.me joined.
Proof.
  apply (JoinNet_never_joins_self (list string) (fun _ => [])
           (fun _ => net.me) (fun seed _ _ => net.lookup seed) net.join
           net.draw draw_range (fun joined => ~ In net.me joined)).
  - intros addr w Hne Hw [Heq | Hin]; [congruence | exact (Hw Hin)].
  - intros [].
Defined.

Lemma JoinNet_no_seed_answers_witness :
  exists seeds,
    net.joinNet (fun _ => inl "timeout"%string) net.seedList []
    = Return (seeds, [], Some FailedToJoin).
Proof.
  unfold net.joinNet. apply JoinNet_no_seed_answers.
  - exact draw_range.
  - intros seed w _. eexists. reflexivity.
Defined.

Lemma JoinNet_succeeds_witness :
  exists seeds joined err,
    net.joinNet net.lookup net.seedList [] = Return (seeds, joined, err) /\
    (err = None <->
     exists seed,
       In seed net.seedList /\
       joinable net.lookup net.me net.refusal seed).
Proof.
  apply (JoinNet_succeeds (list string) (fun _ => [])
           (fun _ => net.me) (fun seed _ _ => net.lookup seed) net.join
           net.draw draw_range net.lookup net.me net.refusal
           (fun _ _ => eq_refl) (fun _ => eq_refl) (fun _ _ => eq_refl)
           net.seedList []).
Defined.

(** On the sample network the call joins [node-1] and [node-2] through
    [seed-b], the second without success, and returns a nil error. *)
Example JoinNet_sample :
  net.joinNet net.lookup net.seedList []
  = Return (["seed-c"; "seed-a"; "seed-b"]%string,
            ["node-2"; "node-1"]%string, None).
Proof. reflexivity. Qed.

End main.
